(** * CodeAlchemist: the Python-to-target emitter of [tr/core.py]

    A shallow embedding of [PythonToTargetTranslator] and [CodeTranslator]
    and the properties of the emission engine that the specification
    states about them.

    Python strings are modelled as [string] (one [ascii] per character),
    Python [int] as [Z], the [set] of variable names as [gset string], and
    the mutable fields of a translator instance as an explicit state that
    every statement emitter receives and returns. *)

From Stdlib Require Import ZArith Ascii DecimalString.
From stdpp Require Import base gmap strings.

Set Warnings "-register-all".
Local Open Scope Z_scope.

(** ** Python [str] operations used by the translator *)

Module Str.

(** The newline and double-quote characters, and a backslash. *)
Definition nl : string := String (ascii_of_nat 10) EmptyString.
Definition dq : string := String (ascii_of_nat 34) EmptyString.
Definition bs : string := String (ascii_of_nat 92) EmptyString.

(** Truth value of a string: [if s:] *)
Definition truthy (s : string) : bool :=
  match s with EmptyString => false | String _ _ => true end.

(** [x in [a, b, ...]] *)
Definition mem (x : string) (l : list string) : bool :=
  existsb (String.eqb x) l.

(** [sep.join(l)] *)
Fixpoint join (sep : string) (l : list string) : string :=
  match l with
  | [] => ""
  | [x] => x
  | x :: rest => x +:+ sep +:+ join sep rest
  end.

(** [s * n]; a count below one gives the empty string. *)
Definition times (s : string) (n : Z) : string :=
  Nat.iter (Z.to_nat n) (String.append s) "".

(** [c.isspace()] on the code points below 256: the control characters
    9 to 13 and 28 to 31, the blank, the next-line character 133 and the
    no-break space 160. *)
Definition is_space (c : ascii) : bool :=
  let n := nat_of_ascii c in
  ((9 <=? n) && (n <=? 13) || (28 <=? n) && (n <=? 32)
   || (n =? 133) || (n =? 160))%nat.

Fixpoint lstrip (s : string) : string :=
  match s with
  | String c rest => if is_space c then lstrip rest else s
  | EmptyString => ""
  end.

(** [rstrip] keeps a character when something other than white space
    follows it. *)
Fixpoint rstrip (s : string) : string :=
  match s with
  | String c rest =>
      match rstrip rest with
      | EmptyString => if is_space c then "" else String c ""
      | kept => String c kept
      end
  | EmptyString => ""
  end.

(** [s.strip()] *)
Definition strip (s : string) : string := rstrip (lstrip s).

(** [s.startswith(p)] *)
Definition startswith (s p : string) : bool := String.prefix p s.

(** [s.split(c)] for a one-character separator: never an empty list. *)
Fixpoint split (c : ascii) (s : string) : list string :=
  match s with
  | EmptyString => [""]
  | String a rest =>
      if Ascii.eqb a c then "" :: split c rest
      else match split c rest with
           | piece :: pieces => String a piece :: pieces
           | [] => [String a ""]
           end
  end.

(** [s.rsplit(c, 1)[0]]: what stands before the last [c], the whole of
    [s] when there is none. *)
Definition rsplit1_head (c : ascii) (s : string) : string :=
  match rev (split c s) with
  | [] => s
  | [_] => s
  | _ :: before => join (String c "") (rev before)
  end.

(** [s.replace(c, by)] for a one-character pattern. *)
Fixpoint replace (c : ascii) (by_ : string) (s : string) : string :=
  match s with
  | EmptyString => ""
  | String a rest =>
      (if Ascii.eqb a c then by_ else String a "") +:+ replace c by_ rest
  end.

(** [s.lower()] on the code points below 256: the letters [A] to [Z]
    and the capital letters 192 to 222, the multiplication sign 215
    apart. *)
Definition lower_ascii (c : ascii) : ascii :=
  let n := nat_of_ascii c in
  if ((65 <=? n) && (n <=? 90)
      || (192 <=? n) && (n <=? 222) && negb (n =? 215))%nat
  then ascii_of_nat (n + 32) else c.

Fixpoint lower (s : string) : string :=
  match s with
  | EmptyString => ""
  | String a rest => String (lower_ascii a) (lower rest)
  end.

(** [str(n)] for an [int]. *)
Definition of_int (n : Z) : string := NilZero.string_of_int (Z.to_int n).

End Str.

(** ** The syntax tree: the part of Python's [ast] the translator inspects *)

Module ast.

(** The value held by an [ast.Constant].  [COther] stands for every
    constant that is neither [None], a [bool], a [str] nor an [int]
    (a float, complex number, bytes object or the ellipsis); it carries
    the text [str(value)] gives for it. *)
Inductive constant : Type :=
| CNone
| CBool (b : bool)
| CStr (s : string)
| CInt (n : Z)
| COther (text : string).

Inductive operator : Type :=
| Add | Sub | Mult | MatMult | Div | Mod | Pow
| LShift | RShift | BitOr | BitXor | BitAnd | FloorDiv.

Inductive cmpop : Type :=
| Eq | NotEq | Lt | LtE | Gt | GtE | Is | IsNot | In | NotIn.

Inductive unaryop : Type := Invert | Not | UAdd | USub.

Inductive boolop : Type := And | Or.

(** Expressions.  [OtherExpr kind] is any node of a class the
    translator has no case for ([Lambda], [ListComp], [JoinedStr], ...);
    [kind] is its class name.  A [Dict] key is [None] for a [**]
    unpacking. *)
Inductive expr : Type :=
| Constant (value : constant)
| Name (id : string)
| Call (func : expr) (args : list expr)
| BinOp (left : expr) (op : operator) (right : expr)
| Compare (left : expr) (ops : list cmpop) (comparators : list expr)
| Attribute (value : expr) (attr : string)
| Subscript (value : expr) (slice : expr)
| List (elts : list expr)
| Dict (keys : list (option expr)) (values : list expr)
| Tuple (elts : list expr)
| UnaryOp (uop : unaryop) (operand : expr)
| BoolOp (bop : boolop) (values : list expr)
| IfExp (test body orelse : expr)
| OtherExpr (kind : string).

(** Statements.  [FunctionDef] keeps the names of [args.args]; [Assign]
    keeps [targets[0]] apart from the further targets, the grammar
    giving at least one.  [OtherStmt kind] is a statement of any other
    class ([With], [Try], [Raise], ...). *)
Inductive stmt : Type :=
| FunctionDef (name : string) (args : list string) (body : list stmt)
| ClassDef (name : string) (bases : list expr) (body : list stmt)
| Assign (target : expr) (more_targets : list expr) (value : expr)
| AugAssign (target : expr) (op : operator) (value : expr)
| If (test : expr) (body orelse : list stmt)
| For (target iter : expr) (body orelse : list stmt)
| While (test : expr) (body orelse : list stmt)
| Return (value : option expr)
| Expr (value : expr)
| Import
| ImportFrom
| Pass
| Break
| Continue
| OtherStmt (kind : string).

(** [ast.Module]: the root of a parsed program. *)
Record py_module : Type := PyModule { body : list stmt }.

End ast.

(** ** [class PythonToTargetTranslator] *)

(** The fields of an instance that emission updates.  [target_lang] is
    set once by the constructor and never assigned again, so it is a
    parameter of the emitters below rather than a field of the state. *)
Record translator : Type := Translator {
  indent_level : Z;
  variables : gset string
}.

(** [__init__]: the target name is lower-cased, the depth is zero and no
    variable is recorded. *)
Definition init (target_lang : string) : string * translator :=
  (Str.lower target_lang, {| indent_level := 0; variables := ∅ |}).

Section PythonToTargetTranslator.

Variable target_lang : string.

Definition is_lang (name : string) : bool := String.eqb target_lang name.
Definition lang_in (names : list string) : bool := Str.mem target_lang names.

Definition get_indent (self : translator) : string :=
  Str.times "    " (indent_level self).

(** *** Expressions *)

Definition translate_constant (value : ast.constant) : string :=
  match value with
  | ast.CNone => "null"
  | ast.CBool true => "true"
  | ast.CBool false => "false"
  | ast.CStr s =>
      let escaped :=
        Str.replace (ascii_of_nat 34) (Str.bs +:+ Str.dq)
          (Str.replace (ascii_of_nat 92) (Str.bs +:+ Str.bs) s) in
      Str.dq +:+ escaped +:+ Str.dq
  | ast.CInt n => Str.of_int n
  | ast.COther text => text
  end.

Definition translate_constant_name (name : string) : string :=
  if String.eqb name "True" then "true"
  else if String.eqb name "False" then "false"
  else if String.eqb name "None" then "null"
  else name.

Definition translate_operator (op : ast.operator) : string :=
  match op with
  | ast.Add => if is_lang "php" then "." else "+"
  | ast.Sub => "-"
  | ast.Mult => "*"
  | ast.Div => "/"
  | ast.Mod => "%"
  | ast.Pow => if is_lang "php" then "**" else "**"
  | ast.FloorDiv => "//"
  | _ => "+"
  end.

Definition translate_compare_op (op : ast.cmpop) : string :=
  match op with
  | ast.Eq =>
      if lang_in ["javascript"; "typescript"; "php"] then "===" else "=="
  | ast.NotEq =>
      if lang_in ["javascript"; "typescript"; "php"] then "!==" else "!="
  | ast.Lt => "<"
  | ast.LtE => "<="
  | ast.Gt => ">"
  | ast.GtE => ">="
  | _ => "=="
  end.

(** [isinstance(e, ast.Constant) and isinstance(e.value, str)] *)
Definition is_str_constant (e : ast.expr) : bool :=
  match e with
  | ast.Constant (ast.CStr _) => true
  | _ => false
  end.

(** The methods that [translate_expr] dispatches to call it back on the
    children of the node; they are written here over the emitter
    [tr] they call back. *)
Section Dispatch.

Variable tr : ast.expr -> bool -> string.

(** [self.translate_expr(e)] with the flag at its default. *)
Definition tr0 (e : ast.expr) : string := tr e false.

Definition translate_attribute (value : ast.expr) (attr : string) : string :=
  let value := tr0 value in
  if is_lang "php" && String.eqb value "self" then "$this->" +:+ attr
  else if String.eqb value "self" then
    if lang_in ["javascript"; "typescript"; "java"; "csharp"; "kotlin";
                "dart"; "scala"]
    then "this." +:+ attr
    else "self." +:+ attr
  else value +:+ "." +:+ attr.

Definition translate_print (args : string) : string :=
  if is_lang "javascript" then "console.log(" +:+ args +:+ ")"
  else if is_lang "typescript" then "console.log(" +:+ args +:+ ")"
  else if is_lang "java" then "System.out.println(" +:+ args +:+ ")"
  else if lang_in ["c"; "cpp"] then
    "std::cout << " +:+ args +:+ " << std::endl"
  else if is_lang "csharp" then "Console.WriteLine(" +:+ args +:+ ")"
  else if is_lang "go" then "fmt.Println(" +:+ args +:+ ")"
  else if is_lang "rust" then
    "println!(" +:+ Str.dq +:+ "{}" +:+ Str.dq +:+ ", " +:+ args +:+ ")"
  else if is_lang "php" then "echo " +:+ args
  else if is_lang "ruby" then "puts " +:+ args
  else if is_lang "swift" then "print(" +:+ args +:+ ")"
  else if is_lang "kotlin" then "println(" +:+ args +:+ ")"
  else if is_lang "perl" then "print " +:+ args
  else if is_lang "lua" then "print(" +:+ args +:+ ")"
  else if is_lang "dart" then "print(" +:+ args +:+ ")"
  else if is_lang "scala" then "println(" +:+ args +:+ ")"
  else "print(" +:+ args +:+ ")".

Definition translate_len (args : string) : string :=
  if lang_in ["javascript"; "typescript"] then args +:+ ".length"
  else if is_lang "java" then args +:+ ".length"
  else if lang_in ["c"; "cpp"] then args +:+ ".size()"
  else if is_lang "csharp" then args +:+ ".Length"
  else if is_lang "go" then "len(" +:+ args +:+ ")"
  else if is_lang "rust" then args +:+ ".len()"
  else if is_lang "php" then "count(" +:+ args +:+ ")"
  else if is_lang "ruby" then args +:+ ".length"
  else if is_lang "swift" then args +:+ ".count"
  else if is_lang "kotlin" then args +:+ ".size"
  else "len(" +:+ args +:+ ")".

Definition translate_str (args : string) : string :=
  if lang_in ["javascript"; "typescript"] then "String(" +:+ args +:+ ")"
  else if is_lang "java" then "String.valueOf(" +:+ args +:+ ")"
  else if lang_in ["c"; "cpp"] then "std::to_string(" +:+ args +:+ ")"
  else if is_lang "csharp" then args +:+ ".ToString()"
  else if is_lang "go" then "fmt.Sprint(" +:+ args +:+ ")"
  else if is_lang "rust" then args +:+ ".to_string()"
  else if is_lang "php" then "strval(" +:+ args +:+ ")"
  else if is_lang "ruby" then args +:+ ".to_s"
  else if is_lang "swift" then "String(" +:+ args +:+ ")"
  else if is_lang "kotlin" then args +:+ ".toString()"
  else "String(" +:+ args +:+ ")".

(** [call_args] is [call.args]; [args] its comma-joined emission. *)
Definition translate_range (call_args : list ast.expr) (args : string)
  : string :=
  if lang_in ["javascript"; "typescript"] then
    match call_args with
    | first :: _ =>
        "Array.from({length: " +:+ tr0 first +:+ "}, (_, i) => i)"
    | [] => "[]"
    end
  else if is_lang "php" then
    match call_args with
    | first :: _ => "range(0, " +:+ tr0 first +:+ " - 1)"
    | [] => "[]"
    end
  else if is_lang "ruby" then
    match call_args with
    | first :: _ => "(0..." +:+ tr0 first +:+ ")"
    | [] => "(0...0)"
    end
  else "range(" +:+ args +:+ ")".

Definition translate_call (func : ast.expr) (call_args : list ast.expr)
  : string :=
  let func_name :=
    match func with
    | ast.Name id => id
    | ast.Attribute value attr => translate_attribute value attr
    | _ => tr0 func
    end in
  let args := Str.join ", " (map tr0 call_args) in
  if String.eqb func_name "print" then translate_print args
  else if String.eqb func_name "len" then translate_len args
  else if String.eqb func_name "str" then translate_str args
  else if String.eqb func_name "range" then translate_range call_args args
  else func_name +:+ "(" +:+ args +:+ ")".

Definition translate_binop (left : ast.expr) (op : ast.operator)
  (right : ast.expr) : string :=
  let left_text := tr0 left in
  let right_text := tr0 right in
  let is_string_concat :=
    match op with
    | ast.Add => is_str_constant left || is_str_constant right
    | _ => false
    end in
  if is_string_concat && match op with ast.Add => true | _ => false end
  then
    if is_lang "php" then left_text +:+ " . " +:+ right_text
    else left_text +:+ " + " +:+ right_text
  else
    left_text +:+ " " +:+ translate_operator op +:+ " " +:+ right_text.

(** The parts appended for [zip(compare.ops, compare.comparators)]. *)
Fixpoint compare_parts (ops : list ast.cmpop)
  (comparators : list ast.expr) {struct comparators} : list string :=
  match ops, comparators with
  | op :: ops', comparator :: comparators' =>
      (translate_compare_op op +:+ " " +:+ tr0 comparator)
      :: compare_parts ops' comparators'
  | _, _ => []
  end.

Definition translate_compare (left : ast.expr) (ops : list ast.cmpop)
  (comparators : list ast.expr) : string :=
  Str.join " " (tr0 left :: compare_parts ops comparators).

Definition translate_subscript (value slice : ast.expr) : string :=
  tr0 value +:+ "[" +:+ tr0 slice +:+ "]".

Definition translate_list (elts : list ast.expr) : string :=
  let elements := Str.join ", " (map tr0 elts) in
  if is_lang "php" then "array(" +:+ elements +:+ ")"
  else "[" +:+ elements +:+ "]".

(** [translate_expr(key)] for a [Dict] key; on [None] the emitter's first
    test, [expr is None], answers. *)
Definition tr_key (key : option ast.expr) : string :=
  match key with
  | Some e => tr0 e
  | None => "null"
  end.

(** The [pairs] built over [zip(dct.keys, dct.values)].  The emitter
    has no effect, so emitting all keys and all values before pairing
    them gives the strings of the loop. *)
Definition dict_pairs (keys : list (option ast.expr))
  (values : list ast.expr) : list string :=
  map (fun '(key_str, value_str) =>
         if is_lang "php" then key_str +:+ " => " +:+ value_str
         else key_str +:+ ": " +:+ value_str)
      (combine (map tr_key keys) (map tr0 values)).

Definition translate_dict (keys : list (option ast.expr))
  (values : list ast.expr) : string :=
  let pairs := dict_pairs keys values in
  if is_lang "php" then "array(" +:+ Str.join ", " pairs +:+ ")"
  else "{" +:+ Str.join ", " pairs +:+ "}".

Definition translate_tuple (elts : list ast.expr) : string :=
  let elements := Str.join ", " (map tr0 elts) in
  if is_lang "php" then "array(" +:+ elements +:+ ")"
  else if lang_in ["javascript"; "typescript"] then
    "[" +:+ elements +:+ "]"
  else "(" +:+ elements +:+ ")".

Definition translate_unaryop (op : ast.unaryop) (operand : ast.expr)
  : string :=
  let operand := tr0 operand in
  match op with
  | ast.Not => "!" +:+ operand
  | ast.UAdd => "+" +:+ operand
  | ast.USub => "-" +:+ operand
  | ast.Invert => operand
  end.

Definition translate_boolop (op : ast.boolop) (values : list ast.expr)
  : string :=
  let values := map tr0 values in
  match op with
  | ast.And => Str.join " && " values
  | ast.Or => Str.join " || " values
  end.

Definition translate_ifexp (test body orelse : ast.expr) : string :=
  tr0 test +:+ " ? " +:+ tr0 body +:+ " : " +:+ tr0 orelse.

End Dispatch.

Fixpoint translate_expr (expr : ast.expr) (is_assignment_target : bool)
  {struct expr} : string :=
  match expr with
  | ast.Constant value => translate_constant value
  | ast.Name name =>
      if Str.mem name ["True"; "False"; "None"] then
        translate_constant_name name
      else if is_lang "php" && negb is_assignment_target then "$" +:+ name
      else name
  | ast.Call func args => translate_call translate_expr func args
  | ast.BinOp lhs op rhs => translate_binop translate_expr lhs op rhs
  | ast.Compare first ops comparators =>
      translate_compare translate_expr first ops comparators
  | ast.Attribute value attr => translate_attribute translate_expr value attr
  | ast.Subscript value slice => translate_subscript translate_expr value slice
  | ast.List elts => translate_list translate_expr elts
  | ast.Dict keys values => translate_dict translate_expr keys values
  | ast.Tuple elts => translate_tuple translate_expr elts
  | ast.UnaryOp op operand => translate_unaryop translate_expr op operand
  | ast.BoolOp op values => translate_boolop translate_expr op values
  | ast.IfExp test body orelse =>
      translate_ifexp translate_expr test body orelse
  | ast.OtherExpr _ => "mero_expr"
  end.

(** *** Statements *)

(** [self.indent_level += 1] and [self.indent_level -= 1] *)
Definition indent (self : translator) : translator :=
  {| indent_level := indent_level self + 1; variables := variables self |}.

Definition dedent (self : translator) : translator :=
  {| indent_level := indent_level self - 1; variables := variables self |}.

(** [self.variables.add(name)] *)
Definition add_variable (name : string) (self : translator) : translator :=
  {| indent_level := indent_level self;
     variables := {[ name ]} ∪ variables self |}.

Definition translate_parameters (args : list string) : string :=
  let params :=
    flat_map (fun arg =>
                if String.eqb arg "self" then []
                else if is_lang "php" then ["$" +:+ arg]
                else if is_lang "perl" then ["$" +:+ arg]
                else [arg]) args in
  Str.join ", " params.

Definition translate_assignment (target : ast.expr) (value : ast.expr)
  (self : translator) : string * translator :=
  let target_text := translate_expr target true in
  let value := translate_expr value false in
  let self :=
    match target with
    | ast.Name id => add_variable id self
    | _ => self
    end in
  let ind := get_indent self in
  let text :=
    if is_lang "javascript" then
      ind +:+ "let " +:+ target_text +:+ " = " +:+ value +:+ ";"
    else if is_lang "typescript" then
      ind +:+ "let " +:+ target_text +:+ " = " +:+ value +:+ ";"
    else if is_lang "java" then
      ind +:+ "var " +:+ target_text +:+ " = " +:+ value +:+ ";"
    else if lang_in ["c"; "cpp"] then
      ind +:+ "auto " +:+ target_text +:+ " = " +:+ value +:+ ";"
    else if is_lang "csharp" then
      ind +:+ "var " +:+ target_text +:+ " = " +:+ value +:+ ";"
    else if is_lang "go" then
      ind +:+ target_text +:+ " := " +:+ value
    else if is_lang "rust" then
      ind +:+ "let mut " +:+ target_text +:+ " = " +:+ value +:+ ";"
    else if is_lang "php" then
      let php_target :=
        if negb (Str.startswith target_text "$") then "$" +:+ target_text
        else target_text in
      ind +:+ php_target +:+ " = " +:+ value +:+ ";"
    else if is_lang "ruby" then
      ind +:+ target_text +:+ " = " +:+ value
    else if is_lang "swift" then
      ind +:+ "var " +:+ target_text +:+ " = " +:+ value
    else if is_lang "kotlin" then
      ind +:+ "var " +:+ target_text +:+ " = " +:+ value
    else if is_lang "perl" then
      ind +:+ "my $" +:+ target_text +:+ " = " +:+ value +:+ ";"
    else if is_lang "lua" then
      ind +:+ "local " +:+ target_text +:+ " = " +:+ value
    else if is_lang "dart" then
      ind +:+ "var " +:+ target_text +:+ " = " +:+ value +:+ ";"
    else if is_lang "scala" then
      ind +:+ "val " +:+ target_text +:+ " = " +:+ value
    else
      ind +:+ target_text +:+ " = " +:+ value +:+ ";" in
  (text, self).

Definition translate_aug_assignment (target : ast.expr) (op : ast.operator)
  (value : ast.expr) (self : translator) : string :=
  let target := translate_expr target false in
  let value := translate_expr value false in
  let op := translate_operator op in
  if is_lang "php" then
    let php_target :=
      if negb (Str.startswith target "$") then "$" +:+ target else target in
    get_indent self +:+ php_target +:+ " " +:+ op +:+ "= " +:+ value +:+ ";"
  else
    get_indent self +:+ target +:+ " " +:+ op +:+ "= " +:+ value +:+ ";".

Definition translate_return (value : option ast.expr) (self : translator)
  : string :=
  let value :=
    match value with
    | Some e => translate_expr e false
    | None => ""
    end in
  get_indent self +:+ "return"
    +:+ (if Str.truthy value then " " +:+ value else "") +:+ ";".

Definition translate_expression_stmt (value : ast.expr) (self : translator)
  : string :=
  let expr := translate_expr value false in
  if lang_in ["ruby"; "lua"] then get_indent self +:+ expr
  else get_indent self +:+ expr +:+ ";".

Definition translate_pass (self : translator) : string :=
  if lang_in ["ruby"] then ""
  else if is_lang "python" then get_indent self +:+ "pass"
  else get_indent self +:+ ";".

(** The two block layouts of the format strings:
    [{ind}{head} {{\n{body}\n{ind}}}] and [{ind}{head}\n{body}\n{ind}end]. *)
Definition braces (ind head body : string) : string :=
  ind +:+ head +:+ " {" +:+ Str.nl +:+ body +:+ Str.nl +:+ ind +:+ "}".

Definition ended (ind head body : string) : string :=
  ind +:+ head +:+ Str.nl +:+ body +:+ Str.nl +:+ ind +:+ "end".

(** The block emitters call [translate_statement] back on the statements
    of their bodies; they are written over the emitter [tr_stmt] they
    call back. *)
Section Blocks.

Variable tr_stmt : ast.stmt -> translator -> string * translator.

(** The loop of [translate_body]: the emitted statements that are
    neither empty nor blank. *)
Fixpoint body_lines (body : list ast.stmt) (self : translator)
  : list string * translator :=
  match body with
  | [] => ([], self)
  | stmt :: rest =>
      let '(translated, self) := tr_stmt stmt self in
      let '(lines, self) := body_lines rest self in
      (if Str.truthy translated && Str.truthy (Str.strip translated)
       then translated :: lines else lines, self)
  end.

Definition translate_body (body : list ast.stmt) (self : translator)
  : string * translator :=
  let '(lines, self) := body_lines body self in
  match lines with
  | [] => (get_indent self +:+ "    ", self)
  | _ => (Str.join Str.nl lines, self)
  end.

(** The [body] of [translate_function]: the emitted statements of the
    function one level deeper, or the filler line when they are blank. *)
Definition function_body (func_body : list ast.stmt) (self : translator)
  : string * translator :=
  let self := indent self in
  let '(body, self) := translate_body func_body self in
  let self := dedent self in
  (if negb (Str.truthy (Str.strip body)) then
     get_indent self +:+ "    "
       +:+ (if lang_in ["python"; "ruby"] then "pass" else "mero_empty")
   else body, self).

Definition translate_function (name : string) (args : list string)
  (func_body : list ast.stmt) (self : translator) : string * translator :=
  let func_name :=
    if String.eqb name "__init__" then
      if is_lang "php" then "__construct"
      else if lang_in ["javascript"; "typescript"] then "constructor"
      else name
    else name in
  let params := translate_parameters args in
  let '(body, self) := function_body func_body self in
  let ind := get_indent self in
  let sig := func_name +:+ "(" +:+ params +:+ ")" in
  let text :=
    if is_lang "javascript" then braces ind ("function " +:+ sig) body
    else if is_lang "typescript" then braces ind ("function " +:+ sig) body
    else if is_lang "java" then
      braces ind ("public static void " +:+ sig) body
    else if lang_in ["c"; "cpp"] then braces ind ("void " +:+ sig) body
    else if is_lang "csharp" then
      braces ind ("public static void " +:+ sig) body
    else if is_lang "go" then braces ind ("func " +:+ sig) body
    else if is_lang "rust" then braces ind ("fn " +:+ sig) body
    else if is_lang "php" then braces ind ("function " +:+ sig) body
    else if is_lang "ruby" then ended ind ("def " +:+ sig) body
    else if is_lang "swift" then braces ind ("func " +:+ sig) body
    else if is_lang "kotlin" then braces ind ("fun " +:+ sig) body
    else if is_lang "perl" then
      ind +:+ "sub " +:+ func_name +:+ " {" +:+ Str.nl
        +:+ ind +:+ "    my (" +:+ params +:+ ") = @_;" +:+ Str.nl
        +:+ body +:+ Str.nl +:+ ind +:+ "}"
    else if is_lang "lua" then ended ind ("function " +:+ sig) body
    else if is_lang "dart" then braces ind sig body
    else if is_lang "scala" then braces ind ("def " +:+ sig +:+ " =") body
    else braces ind ("function " +:+ sig) body in
  (text, self).

Definition translate_class (class_name : string) (cls_body : list ast.stmt)
  (self : translator) : string * translator :=
  let self := indent self in
  let '(body, self) := translate_body cls_body self in
  let self := dedent self in
  let ind := get_indent self in
  let text :=
    if lang_in ["javascript"; "typescript"] then
      braces ind ("class " +:+ class_name) body
    else if is_lang "java" then
      braces ind ("public class " +:+ class_name) body
    else if lang_in ["c"; "cpp"] then
      ind +:+ "class " +:+ class_name +:+ " {" +:+ Str.nl +:+ "public:"
        +:+ Str.nl +:+ body +:+ Str.nl +:+ ind +:+ "};"
    else if is_lang "csharp" then
      braces ind ("public class " +:+ class_name) body
    else if is_lang "php" then braces ind ("class " +:+ class_name) body
    else if is_lang "ruby" then ended ind ("class " +:+ class_name) body
    else if is_lang "swift" then braces ind ("class " +:+ class_name) body
    else if is_lang "kotlin" then braces ind ("class " +:+ class_name) body
    else if is_lang "scala" then braces ind ("class " +:+ class_name) body
    else braces ind ("class " +:+ class_name) body in
  (text, self).

Definition translate_if (test : ast.expr) (body orelse : list ast.stmt)
  (self : translator) : string * translator :=
  let condition := translate_expr test false in
  let self := indent self in
  let '(if_body, self) := translate_body body self in
  let self := dedent self in
  let result :=
    if lang_in ["javascript"; "typescript"; "java"; "c"; "cpp"; "csharp";
                "php"; "go"; "rust"; "swift"; "kotlin"; "dart"; "scala";
                "perl"]
    then braces (get_indent self) ("if (" +:+ condition +:+ ")") if_body
    else if lang_in ["ruby"; "lua"] then
      ended (get_indent self) ("if " +:+ condition +:+ " then") if_body
    else braces (get_indent self) ("if (" +:+ condition +:+ ")") if_body in
  match orelse with
  | [] => (result, self)
  | _ :: _ =>
      let self := indent self in
      let '(else_body, self) := translate_body orelse self in
      let self := dedent self in
      let ind := get_indent self in
      (if lang_in ["ruby"; "lua"] then
         Str.rsplit1_head (ascii_of_nat 10) result
           +:+ Str.nl +:+ ind +:+ "else" +:+ Str.nl +:+ else_body
           +:+ Str.nl +:+ ind +:+ "end"
       else
         result +:+ " else {" +:+ Str.nl +:+ else_body
           +:+ Str.nl +:+ ind +:+ "}",
       self)
  end.

Definition translate_for (target iter : ast.expr) (for_body : list ast.stmt)
  (self : translator) : string * translator :=
  let var := translate_expr target true in
  let iterable := translate_expr iter false in
  let self := indent self in
  let '(body, self) := translate_body for_body self in
  let self := dedent self in
  let ind := get_indent self in
  let text :=
    if is_lang "javascript" then
      braces ind ("for (let " +:+ var +:+ " of " +:+ iterable +:+ ")") body
    else if is_lang "typescript" then
      braces ind ("for (let " +:+ var +:+ " of " +:+ iterable +:+ ")") body
    else if is_lang "java" then
      braces ind ("for (var " +:+ var +:+ " : " +:+ iterable +:+ ")") body
    else if lang_in ["c"; "cpp"] then
      braces ind ("for (auto " +:+ var +:+ " : " +:+ iterable +:+ ")") body
    else if is_lang "csharp" then
      braces ind ("foreach (var " +:+ var +:+ " in " +:+ iterable +:+ ")")
        body
    else if is_lang "go" then
      braces ind ("for _, " +:+ var +:+ " := range " +:+ iterable) body
    else if is_lang "rust" then
      braces ind ("for " +:+ var +:+ " in " +:+ iterable) body
    else if is_lang "php" then
      let php_var :=
        if negb (Str.startswith var "$") then "$" +:+ var else var in
      braces ind ("foreach (" +:+ iterable +:+ " as " +:+ php_var +:+ ")")
        body
    else if is_lang "ruby" then
      ended ind (iterable +:+ ".each do |" +:+ var +:+ "|") body
    else if is_lang "swift" then
      braces ind ("for " +:+ var +:+ " in " +:+ iterable) body
    else if is_lang "kotlin" then
      braces ind ("for (" +:+ var +:+ " in " +:+ iterable +:+ ")") body
    else if is_lang "perl" then
      braces ind ("foreach my $" +:+ var +:+ " (@{" +:+ iterable +:+ "})")
        body
    else if is_lang "lua" then
      ended ind ("for _, " +:+ var +:+ " in pairs(" +:+ iterable +:+ ") do")
        body
    else if is_lang "dart" then
      braces ind ("for (var " +:+ var +:+ " in " +:+ iterable +:+ ")") body
    else if is_lang "scala" then
      braces ind ("for (" +:+ var +:+ " <- " +:+ iterable +:+ ")") body
    else
      braces ind ("for (" +:+ var +:+ " in " +:+ iterable +:+ ")") body in
  (text, self).

Definition translate_while (test : ast.expr) (while_body : list ast.stmt)
  (self : translator) : string * translator :=
  let condition := translate_expr test false in
  let self := indent self in
  let '(body, self) := translate_body while_body self in
  let self := dedent self in
  let ind := get_indent self in
  let text :=
    if is_lang "go" then braces ind ("for " +:+ condition) body
    else if lang_in ["ruby"; "lua"] then
      ended ind ("while " +:+ condition +:+ " do") body
    else braces ind ("while (" +:+ condition +:+ ")") body in
  (text, self).

End Blocks.

Fixpoint translate_statement (stmt : ast.stmt) (self : translator)
  {struct stmt} : string * translator :=
  match stmt with
  | ast.FunctionDef name args body =>
      translate_function translate_statement name args body self
  | ast.ClassDef name _ body =>
      translate_class translate_statement name body self
  | ast.Assign target _ value => translate_assignment target value self
  | ast.AugAssign target op value =>
      (translate_aug_assignment target op value self, self)
  | ast.If test body orelse =>
      translate_if translate_statement test body orelse self
  | ast.For target iter body _ =>
      translate_for translate_statement target iter body self
  | ast.While test body _ =>
      translate_while translate_statement test body self
  | ast.Return value => (translate_return value self, self)
  | ast.Expr value => (translate_expression_stmt value self, self)
  | ast.Import => ("", self)
  | ast.ImportFrom => ("", self)
  | ast.Pass => (translate_pass self, self)
  | ast.Break => (get_indent self +:+ "break;", self)
  | ast.Continue => (get_indent self +:+ "continue;", self)
  | ast.OtherStmt _ => ("", self)
  end.

(** *** Whole programs *)

Definition is_import (stmt : ast.stmt) : bool :=
  match stmt with
  | ast.Import | ast.ImportFrom => true
  | _ => false
  end.

(** The loop of [translate_module]: the lists [imports] and [main_code]. *)
Fixpoint module_loop (body : list ast.stmt) (self : translator)
  : list string * list string * translator :=
  match body with
  | [] => ([], [], self)
  | stmt :: rest =>
      let '(code, self) := translate_statement stmt self in
      let '(imports, main_code, self) := module_loop rest self in
      if is_import stmt then
        (if Str.truthy code then code :: imports else imports, main_code, self)
      else
        (imports, if Str.truthy code then code :: main_code else main_code,
         self)
  end.

Definition translate_module (node : ast.py_module) (self : translator)
  : string * translator :=
  let '(imports, main_code, self) := module_loop (ast.body node) self in
  let blank := Str.nl +:+ Str.nl in
  match imports with
  | _ :: _ =>
      if negb (lang_in ["php"]) then
        (Str.join Str.nl imports +:+ blank +:+ Str.join blank main_code, self)
      else (Str.join blank main_code, self)
  | [] => (Str.join blank main_code, self)
  end.

Definition indent_code (code : string) (level : Z) : string :=
  let indent := Str.times "    " level in
  let lines := Str.split (ascii_of_nat 10) code in
  Str.join Str.nl
    (map (fun line =>
            if Str.truthy (Str.strip line) then indent +:+ line else "")
         lines).

(** The loop of the [java] wrapper over the lines of the emitted text:
    the lists [class_members] and [main_calls]. *)
Fixpoint java_partition (lines : list string) : list string * list string :=
  match lines with
  | [] => ([], [])
  | line :: rest =>
      let '(class_members, main_calls) := java_partition rest in
      let stripped := Str.strip line in
      if Str.startswith stripped "public static void"
         || Str.startswith stripped "public class"
         || Str.startswith stripped "class "
      then (line :: class_members, main_calls)
      else if Str.truthy stripped
              && negb (Str.startswith stripped "}")
              && negb (Str.startswith stripped "{")
      then (class_members, ("        " +:+ stripped) :: main_calls)
      else (class_members, main_calls)
  end.

Definition add_language_wrappers (code : string) : string :=
  if is_lang "java" then
    let lines := Str.split (ascii_of_nat 10) (Str.strip code) in
    let '(class_members, main_calls) := java_partition lines in
    let class_body := Str.join Str.nl class_members in
    let main_body := Str.join Str.nl main_calls in
    "public class MeroTranslated {" +:+ Str.nl +:+ class_body +:+ Str.nl
      +:+ Str.nl +:+ "    public static void main(String[] args) {"
      +:+ Str.nl +:+ main_body +:+ Str.nl +:+ "    }" +:+ Str.nl +:+ "}"
  else if lang_in ["c"; "cpp"] then
    "#include <iostream>" +:+ Str.nl +:+ "using namespace std;" +:+ Str.nl
      +:+ Str.nl +:+ code
  else if is_lang "go" then
    "package main" +:+ Str.nl +:+ "import " +:+ Str.dq +:+ "fmt" +:+ Str.dq
      +:+ Str.nl +:+ Str.nl +:+ "func main() {" +:+ Str.nl
      +:+ indent_code code 1 +:+ Str.nl +:+ "}"
  else if is_lang "php" then
    "<?php" +:+ Str.nl +:+ code +:+ Str.nl +:+ "?>"
  else if is_lang "rust" then
    "fn main() {" +:+ Str.nl +:+ indent_code code 1 +:+ Str.nl +:+ "}"
  else code.

Definition fallback_translate (code : string) : string := code.

(** The body of the [try] block of [translate], from the parsed tree on. *)
Definition translate_tree (tree : ast.py_module) (self : translator)
  : string * translator :=
  let '(translated_code, self) := translate_module tree self in
  (add_language_wrappers translated_code, self).

(** [translate].  [ast_parse] is Python's own parser; [None] stands for
    its [SyntaxError]. *)
Definition translate (ast_parse : string -> option ast.py_module)
  (python_code : string) (self : translator) : string * translator :=
  match ast_parse python_code with
  | Some tree => translate_tree tree self
  | None => (fallback_translate python_code, self)
  end.

End PythonToTargetTranslator.

(** ** [class CodeTranslator] *)

Definition lang_names : list (string * string) :=
  [("Python", "python"); ("Java", "java"); ("C", "c"); ("C++", "cpp");
   ("C#", "csharp"); ("JavaScript", "javascript");
   ("TypeScript", "typescript"); ("Go", "go"); ("Rust", "rust");
   ("Ruby", "ruby"); ("PHP", "php"); ("Swift", "swift");
   ("Kotlin", "kotlin"); ("Perl", "perl"); ("Lua", "lua"); ("Dart", "dart");
   ("Scala", "scala")].

Definition lang_map : gmap string string := list_to_map lang_names.

(** The language keys the catalogue resolves to; the emitters branch on
    these and on no other name. *)
Definition known_targets : list string := lang_names.*2.

(** [lang_map.get(name, name.lower())] *)
Definition lang_key (name : string) : string :=
  default (Str.lower name) (lang_map !! name).

Definition smart_translate (ast_parse : string -> option ast.py_module)
  (code from_lang to_lang : string) : string :=
  let from_lang_key := lang_key from_lang in
  let to_lang_key := lang_key to_lang in
  if String.eqb from_lang_key "python" then
    let '(target_lang, translator) := init to_lang_key in
    fst (translate target_lang ast_parse code translator)
  else code.


(** * Vocabulary of the properties *)

(** Every character of the string is white space. *)
Fixpoint all_space (s : string) : bool :=
  match s with
  | EmptyString => true
  | String c rest => Str.is_space c && all_space rest
  end.

(** The keys of a [Dict] that are expressions. *)
Fixpoint present (keys : list (option ast.expr)) : list ast.expr :=
  match keys with
  | [] => []
  | Some key :: rest => key :: present rest
  | None :: rest => present rest
  end.

(** The expressions nested directly in an expression. *)
Definition subexprs (e : ast.expr) : list ast.expr :=
  match e with
  | ast.Call func args => func :: args
  | ast.BinOp lhs _ rhs => [lhs; rhs]
  | ast.Compare first _ comparators => first :: comparators
  | ast.Attribute value _ => [value]
  | ast.Subscript value slice => [value; slice]
  | ast.List elts | ast.Tuple elts => elts
  | ast.Dict keys values => present keys ++ values
  | ast.UnaryOp _ operand => [operand]
  | ast.BoolOp _ values => values
  | ast.IfExp test body orelse => [test; body; orelse]
  | ast.Constant _ | ast.Name _ | ast.OtherExpr _ => []
  end.

(** The statements nested directly in a statement. *)
Definition children (s : ast.stmt) : list ast.stmt :=
  match s with
  | ast.FunctionDef _ _ body | ast.ClassDef _ _ body => body
  | ast.If _ body orelse | ast.For _ _ body orelse
  | ast.While _ body orelse => body ++ orelse
  | _ => []
  end.

(** An emitter is [stable] when it leaves the depth as it found it, only
    adds to the recorded variable names, and emits a text that the depth
    alone determines. *)

Definition stable {A : Type} (f : translator → A * translator) : Prop :=
  (∀ self, indent_level (f self).2 = indent_level self
           ∧ variables self ⊆ variables (f self).2)
  ∧ (∀ self self', indent_level self = indent_level self' →
                   (f self).1 = (f self').1).

(** An emitter run one level deeper, as every block emitter runs
    [translate_body]. *)
Definition nested {A : Type} (f : translator → A * translator)
  (self : translator) : A * translator :=
  let '(a, self) := f (indent self) in (a, dedent self).

(** Sample programs: [name = n], and [def f(): x = 1]. *)
Definition assign_int (name : string) (n : Z) : ast.stmt :=
  ast.Assign (ast.Name name) [] (ast.Constant (ast.CInt n)).


#[global] Instance operator_eq_dec : EqDecision ast.operator.
Proof. solve_decision. Defined.

#[global] Instance cmpop_eq_dec : EqDecision ast.cmpop.
Proof. solve_decision. Defined.

(** The operators the emitters have a case for. *)
Definition recognised_operators : list ast.operator :=
  [ast.Add; ast.Sub; ast.Mult; ast.Div; ast.Mod; ast.Pow; ast.FloorDiv].

Definition recognised_cmpops : list ast.cmpop :=
  [ast.Eq; ast.NotEq; ast.Lt; ast.LtE; ast.Gt; ast.GtE].

(** The name the translator ends up with for a requested target: the
    catalogue key, or the lower-cased request when the catalogue has no
    entry, lower-cased once more by the constructor. *)
Definition resolve (to_lang : string) : string := (init (lang_key to_lang)).1.

(** What Python's grammar gives of every expression: identifiers,
    attribute names and the text of a constant are not empty, a comparison
    has at least one operator and as many comparators, a boolean operation
    has at least two operands. *)
Fixpoint well_formed (e : ast.expr) : bool :=
  match e with
  | ast.Constant (ast.COther text) => Str.truthy text
  | ast.Constant _ => true
  | ast.Name id => Str.truthy id
  | ast.Call func args => well_formed func && forallb well_formed args
  | ast.BinOp lhs _ rhs => well_formed lhs && well_formed rhs
  | ast.Compare first ops comparators =>
      well_formed first && forallb well_formed comparators
      && (0 <? length ops)%nat && (length ops =? length comparators)%nat
  | ast.Attribute value attr => well_formed value && Str.truthy attr
  | ast.Subscript value slice => well_formed value && well_formed slice
  | ast.List elts | ast.Tuple elts => forallb well_formed elts
  | ast.Dict keys values =>
      forallb (λ key, match key with
                      | Some k => well_formed k
                      | None => true
                      end) keys
      && forallb well_formed values
  | ast.UnaryOp _ operand => well_formed operand
  | ast.BoolOp _ values => forallb well_formed values && (2 <=? length values)%nat
  | ast.IfExp test body orelse =>
      well_formed test && well_formed body && well_formed orelse
  | ast.OtherExpr _ => true
  end.

(** The statement variants of the engine's node set, [Pass] under [ruby]
    left out; an expression statement is to hold a well-formed
    expression. *)
Definition emitted_variant (target_lang : string) (s : ast.stmt) : bool :=
  match s with
  | ast.Import | ast.ImportFrom | ast.OtherStmt _ => false
  | ast.Pass => negb (String.eqb target_lang "ruby")
  | ast.Expr value => well_formed value
  | _ => true
  end.

(** The targets [add_language_wrappers] puts a frame around. *)
Definition has_wrapper (target_lang : string) : bool :=
  lang_in target_lang ["java"; "c"; "cpp"; "go"; "php"; "rust"].

(** A program whose emission holds something: the target has a wrapper,
    or one of the top-level statements is an emitted variant. *)
Definition program_emits (target_lang : string) (tree : ast.py_module)
  : bool :=
  has_wrapper target_lang
  || existsb (emitted_variant target_lang) (ast.body tree).

(** The statements that emit the empty text: imports, statements of a
    class the translator has no case for, and [Pass] under [ruby]. *)
Definition emits_nothing (target_lang : string) (s : ast.stmt) : bool :=
  match s with
  | ast.Import | ast.ImportFrom | ast.OtherStmt _ => true
  | ast.Pass => String.eqb target_lang "ruby"
  | _ => false
  end.

(** * Vocabulary of the further properties *)

(** The statements [translate_statement] answers with the empty text under
    every target: imports and statements of a class it has no case for. *)
Definition silent (s : ast.stmt) : bool :=
  match s with
  | ast.Import | ast.ImportFrom | ast.OtherStmt _ => true
  | _ => false
  end.

(** The names a statement has [translate_assignment] record: for each
    assignment in the bodies the emitters descend into (the [else] of a
    [for] or a [while] is not one), its first target, [targets[0]], when
    that is a plain name; the further targets of a chained assignment are
    not looked at. *)
Fixpoint assigned (s : ast.stmt) : gset string :=
  match s with
  | ast.FunctionDef _ _ body | ast.ClassDef _ _ body
  | ast.For _ _ body _ | ast.While _ body _ => ⋃ (map assigned body)
  | ast.If _ body orelse => ⋃ (map assigned body) ∪ ⋃ (map assigned orelse)
  | ast.Assign (ast.Name id) _ _ => {[ id ]}
  | _ => ∅
  end.

(** An emitter of statements records the names a statement assigns. *)
Definition records (tr_stmt : ast.stmt → translator → string * translator)
  (s : ast.stmt) : Prop :=
  ∀ self, variables (tr_stmt s self).2 = variables self ∪ assigned s.

(** The two replacements of [translate_constant], character by
    character. *)
Definition escaped_char (a : ascii) : string :=
  if Ascii.eqb a (ascii_of_nat 92) then Str.bs +:+ Str.bs
  else if Ascii.eqb a (ascii_of_nat 34) then Str.bs +:+ Str.dq
  else String a "".

Definition escape (s : string) : string :=
  Str.replace (ascii_of_nat 34) (Str.bs +:+ Str.dq)
    (Str.replace (ascii_of_nat 92) (Str.bs +:+ Str.bs) s).

(** The character does not occur in the string. *)
Fixpoint free_of (c : ascii) (s : string) : bool :=
  match s with
  | EmptyString => true
  | String a rest => negb (Ascii.eqb a c) && free_of c rest
  end.

(** A text that begins with [ind]. *)
Definition begins_with (ind text : string) : Prop :=
  ∃ rest, text = ind +:+ rest.


(** ** [cr/tmpl.py]: the credit header put before the translated text *)

Definition developer : string := "mero".
Definition telegram : string := "qp4rm".
Definition tool_name : string := "CodeAlchemist".

Definition rule : string := "========================================".

(** The five lines and the blank line of the header in a line-comment
    style: the literal of each such branch, the comment token apart. *)
Definition line_header (token : string) : string :=
  token +:+ " " +:+ rule +:+ Str.nl
  +:+ token +:+ " Tool: " +:+ tool_name +:+ Str.nl
  +:+ token +:+ " Developer: " +:+ developer +:+ Str.nl
  +:+ token +:+ " Telegram: @" +:+ telegram +:+ Str.nl
  +:+ token +:+ " " +:+ rule +:+ Str.nl
  +:+ Str.nl.

Definition block_header : string :=
  "/*" +:+ Str.nl
  +:+ " * " +:+ rule +:+ Str.nl
  +:+ " * Tool: " +:+ tool_name +:+ Str.nl
  +:+ " * Developer: " +:+ developer +:+ Str.nl
  +:+ " * Telegram: @" +:+ telegram +:+ Str.nl
  +:+ " * " +:+ rule +:+ Str.nl
  +:+ " */" +:+ Str.nl
  +:+ Str.nl.

Definition get_credit_header (lang_name comment_style : string) : string :=
  if String.eqb comment_style "#" then line_header "#"
  else if String.eqb comment_style "//" then line_header "//"
  else if String.eqb comment_style "--" then line_header "--"
  else if String.eqb comment_style "%" then line_header "%"
  else if String.eqb comment_style ";" then line_header ";"
  else if String.eqb comment_style "'" then line_header "'"
  else if String.eqb comment_style "*" then line_header "*"
  else if String.eqb comment_style "REM" then line_header "REM"
  else if String.eqb comment_style "!" then line_header "!"
  else block_header.

(** The comment styles [get_credit_header] has a branch for. *)
Definition line_styles : list string :=
  ["#"; "//"; "--"; "%"; ";"; "'"; "*"; "REM"; "!"].

(** * Properties *)

(** ** Sample emissions *)

Example str_operations :
  Str.strip "  a b  " = "a b"
  ∧ Str.split "," "a,b,,c" = ["a"; "b"; ""; "c"]
  ∧ Str.split "," "" = [""]
  ∧ Str.rsplit1_head "," "a,b,c" = "a,b"
  ∧ Str.rsplit1_head "," "abc" = "abc"
  ∧ Str.join ", " ["a"; "b"; "c"] = "a, b, c"
  ∧ Str.lower "C++ Builder" = "c++ builder"
  ∧ Str.of_int 0 = "0" ∧ Str.of_int 105 = "105" ∧ Str.of_int (-12) = "-12"
  ∧ Str.times "ab" 3 = "ababab" ∧ Str.times "ab" (-1) = "".
Proof. repeat split. Qed.

(** [def greet(name): print(name)] under [go], and
    [for i in range(n): pass] under [javascript]. *)
Example greet_under_go :
  (translate_statement "go"
     (ast.FunctionDef "greet" ["name"]
        [ast.Expr (ast.Call (ast.Name "print") [ast.Name "name"])])
     (init "go").2).1
  = "func greet(name) {" +:+ Str.nl +:+ "    fmt.Println(name);" +:+ Str.nl
    +:+ "}".
Proof. vm_compute. reflexivity. Qed.

Example range_loop_under_javascript :
  (translate_statement "javascript"
     (ast.For (ast.Name "i") (ast.Call (ast.Name "range") [ast.Name "n"])
        [ast.Pass] [])
     (init "javascript").2).1
  = "for (let i of Array.from({length: n}, (_, i) => i)) {" +:+ Str.nl
    +:+ "    ;" +:+ Str.nl +:+ "}".
Proof. vm_compute. reflexivity. Qed.

(** [if x: pass] with [else: print("a\b")] under [ruby]: the [if] body
    is blank, the string is escaped. *)
Example if_else_under_ruby :
  (translate_statement "ruby"
     (ast.If (ast.Name "x") [ast.Pass]
        [ast.Expr (ast.Call (ast.Name "print")
                     [ast.Constant (ast.CStr "a\b")])])
     (init "ruby").2).1
  = "if x then" +:+ Str.nl +:+ "        " +:+ Str.nl +:+ "else" +:+ Str.nl
    +:+ "    puts " +:+ Str.dq +:+ "a\\b" +:+ Str.dq +:+ Str.nl +:+ "end".
Proof. vm_compute. reflexivity. Qed.

(** ** Facts about the string operations *)

Lemma append_empty_inv (s1 s2 : string) :
  s1 +:+ s2 = "" → s1 = "" ∧ s2 = "".
Proof. destruct s1; simpl; [tauto | discriminate]. Qed.

Lemma append_nonempty_r (s1 s2 : string) : s2 ≠ "" → s1 +:+ s2 ≠ "".
Proof. intros Hs2 H. apply append_empty_inv in H. tauto. Qed.

Lemma append_nonempty_l (s1 s2 : string) : s1 ≠ "" → s1 +:+ s2 ≠ "".
Proof. intros Hs1 H. apply append_empty_inv in H. tauto. Qed.

Lemma truthy_nonempty (s : string) : Str.truthy s = true ↔ s ≠ "".
Proof. destruct s; simpl; split; congruence. Qed.

Lemma all_space_append (s1 s2 : string) :
  all_space (s1 +:+ s2) = all_space s1 && all_space s2.
Proof.
  induction s1 as [|c s1 IH]; simpl; [reflexivity|].
  rewrite IH. apply andb_assoc.
Qed.

Lemma all_space_times (n : Z) : all_space (Str.times "    " n) = true.
Proof.
  unfold Str.times. induction (Z.to_nat n) as [|k IH]; [reflexivity|].
  rewrite Nat.iter_succ, all_space_append, IH. reflexivity.
Qed.

Lemma strip_all_space (s : string) : all_space s = true → Str.strip s = "".
Proof.
  unfold Str.strip. induction s as [|c s IH]; simpl; [reflexivity|].
  intros [Hc Hs]%andb_prop. rewrite Hc. auto.
Qed.

(** ** Induction over expressions and statements, through the lists they
    nest *)

Lemma expr_nested_ind (P : ast.expr → Prop) :
  (∀ e, Forall P (subexprs e) → P e) → ∀ e, P e.
Proof.
  intros step.
  refine (fix IH (e : ast.expr) : P e := step e _).
  pose (all := fix all (l : list ast.expr) : Forall P l :=
          match l with
          | [] => List.Forall_nil P
          | x :: rest => List.Forall_cons P x rest (IH x) (all rest)
          end).
  pose (all_keys :=
          fix all_keys (l : list (option ast.expr)) : Forall P (present l) :=
          match l with
          | [] => List.Forall_nil P
          | Some x :: rest =>
              List.Forall_cons P x (present rest) (IH x) (all_keys rest)
          | None :: rest => all_keys rest
          end).
  destruct e; cbn [subexprs];
    repeat first
      [ apply List.Forall_nil
      | apply Forall_app_2; [apply all_keys | apply all]
      | apply List.Forall_cons; [apply IH|]
      | apply all ].
Qed.

Lemma stmt_nested_ind (P : ast.stmt → Prop) :
  (∀ s, Forall P (children s) → P s) → ∀ s, P s.
Proof.
  intros step.
  refine (fix IH (s : ast.stmt) : P s := step s _).
  pose (all := fix all (l : list ast.stmt) : Forall P l :=
          match l with
          | [] => List.Forall_nil P
          | x :: rest => List.Forall_cons P x rest (IH x) (all rest)
          end).
  destruct s; simpl;
    first [ apply Forall_app_2; apply all | apply all | apply List.Forall_nil ].
Qed.

(** ** What emission does to the translator's fields *)

Lemma get_indent_depth (self self' : translator) :
  indent_level self = indent_level self' → get_indent self = get_indent self'.
Proof. unfold get_indent. congruence. Qed.

Lemma stable_pure {A : Type} (f : translator → A) :
  (∀ self self', indent_level self = indent_level self' → f self = f self') →
  stable (λ self, (f self, self)).
Proof. intros Hf. split; [intros self; simpl; set_solver | exact Hf]. Qed.

Lemma stable_nested {A : Type} (f : translator → A * translator) :
  stable f → stable (nested f).
Proof.
  intros [Hstate Htext]. split.
  - intros self. unfold nested.
    destruct (Hstate (indent self)) as [Hd Hv].
    destruct (f (indent self)) as [a self1]; simpl in *. split; [lia | exact Hv].
  - intros self self' Heq. unfold nested.
    specialize (Htext (indent self) (indent self')).
    destruct (f (indent self)) as [a self1], (f (indent self')) as [a' self1'].
    simpl in *. apply Htext. lia.
Qed.

Section BlocksStable.

Variable target_lang : string.
Variable tr_stmt : ast.stmt → translator → string * translator.

Lemma body_lines_stable (body : list ast.stmt) :
  Forall (λ s, stable (tr_stmt s)) body → stable (body_lines tr_stmt body).
Proof.
  induction 1 as [|s rest [Hs1 Hs2] _ [IH1 IH2]]; simpl.
  - apply (stable_pure (λ _, [])). reflexivity.
  - split.
    + intros self. pose proof (Hs1 self) as [Hd Hv].
      destruct (tr_stmt s self) as [translated self1]; simpl in *.
      pose proof (IH1 self1) as [Hd' Hv'].
      destruct (body_lines tr_stmt rest self1) as [lines self2]; simpl in *.
      split; [congruence | by transitivity (variables self1)].
    + intros self self' Heq.
      pose proof (Hs2 self self' Heq) as Ht.
      pose proof (Hs1 self) as [Hd _]. pose proof (Hs1 self') as [Hd' _].
      destruct (tr_stmt s self) as [translated self1],
               (tr_stmt s self') as [translated' self1']; simpl in *.
      assert (Heq1 : indent_level self1 = indent_level self1') by congruence.
      specialize (IH2 self1 self1' Heq1).
      destruct (body_lines tr_stmt rest self1) as [lines self2],
               (body_lines tr_stmt rest self1') as [lines' self2'].
      simpl in *. subst. reflexivity.
Qed.

Lemma translate_body_stable (body : list ast.stmt) :
  Forall (λ s, stable (tr_stmt s)) body →
  stable (translate_body tr_stmt body).
Proof.
  intros [H1 H2]%body_lines_stable. unfold translate_body. split.
  - intros self. specialize (H1 self).
    destruct (body_lines tr_stmt body self) as [[|line lines] self1];
      exact H1.
  - intros self self' Heq. specialize (H2 self self' Heq).
    pose proof (H1 self) as [Hd _]. pose proof (H1 self') as [Hd' _].
    destruct (body_lines tr_stmt body self) as [lines self1],
             (body_lines tr_stmt body self') as [lines' self1'].
    simpl in *. subst lines'.
    destruct lines; simpl; [|reflexivity].
    f_equal. apply get_indent_depth. congruence.
Qed.

(** Every block emitter runs [translate_body] one level deeper and then
    formats with the depth it started from. *)
Lemma nested_body_stable (body : list ast.stmt) :
  Forall (λ s, stable (tr_stmt s)) body →
  stable (nested (translate_body tr_stmt body)).
Proof. intros H. apply stable_nested, translate_body_stable, H. Qed.

Ltac open_body H self :=
  let D := fresh "D" in
  let V := fresh "V" in
  pose proof (proj1 H self) as [D V]; unfold nested in D, V;
  destruct (translate_body tr_stmt _ (indent self)) as [? ?];
  cbn [fst snd] in D, V.

Ltac same_body H self self' Heq :=
  let T := fresh "T" in
  pose proof (proj2 H self self' Heq) as T; unfold nested in T;
  open_body H self; open_body H self'; cbn [fst snd] in T; subst.

(** Rewrites the indentation of every state reached to that of [self']. *)
Ltac same_indent self' :=
  repeat match goal with
    | D : indent_level (dedent ?s) = _ |- _ =>
        lazymatch goal with
        | |- context [get_indent (dedent s)] =>
            rewrite (get_indent_depth (dedent s) self') by congruence
        end
    end.

Ltac one_block H :=
  split;
  [ intros self; open_body H self; done
  | intros self self' Heq; same_body H self self' Heq;
    cbv zeta; cbn [fst]; same_indent self'; reflexivity ].

Lemma function_body_stable (body : list ast.stmt) :
  Forall (λ s, stable (tr_stmt s)) body →
  stable (function_body target_lang tr_stmt body).
Proof. intros H%nested_body_stable. unfold function_body. one_block H. Qed.

Lemma translate_function_stable (name : string) (args : list string)
  (body : list ast.stmt) :
  Forall (λ s, stable (tr_stmt s)) body →
  stable (translate_function target_lang tr_stmt name args body).
Proof.
  intros [H1 H2]%function_body_stable. unfold translate_function. split.
  - intros self. specialize (H1 self).
    destruct (function_body target_lang tr_stmt body self). exact H1.
  - intros self self' Heq. specialize (H2 self self' Heq).
    pose proof (H1 self) as [D _]. pose proof (H1 self') as [D' _].
    destruct (function_body target_lang tr_stmt body self) as [b s1],
             (function_body target_lang tr_stmt body self') as [b' s1'].
    cbn [fst snd] in *. subst b'.
    rewrite (get_indent_depth s1 s1') by congruence. reflexivity.
Qed.

Lemma translate_class_stable (name : string) (body : list ast.stmt) :
  Forall (λ s, stable (tr_stmt s)) body →
  stable (translate_class target_lang tr_stmt name body).
Proof. intros H%nested_body_stable. unfold translate_class. one_block H. Qed.

Lemma translate_for_stable (target iter : ast.expr) (body : list ast.stmt) :
  Forall (λ s, stable (tr_stmt s)) body →
  stable (translate_for target_lang tr_stmt target iter body).
Proof. intros H%nested_body_stable. unfold translate_for. one_block H. Qed.

Lemma translate_while_stable (test : ast.expr) (body : list ast.stmt) :
  Forall (λ s, stable (tr_stmt s)) body →
  stable (translate_while target_lang tr_stmt test body).
Proof. intros H%nested_body_stable. unfold translate_while. one_block H. Qed.

Lemma translate_if_stable (test : ast.expr) (body orelse : list ast.stmt) :
  Forall (λ s, stable (tr_stmt s)) body →
  Forall (λ s, stable (tr_stmt s)) orelse →
  stable (translate_if target_lang tr_stmt test body orelse).
Proof.
  intros H%nested_body_stable H'%nested_body_stable. unfold translate_if.
  destruct orelse as [|o orelse']; [one_block H|]. split.
  - intros self. open_body H self.
    match goal with |- context [indent (dedent ?s)] =>
      open_body H' (dedent s) end.
    cbn [snd]. split; [congruence | etrans; eassumption].
  - intros self self' Heq. same_body H self self' Heq.
    match goal with
    | |- context [indent (dedent ?s)] =>
        match goal with
        | |- _ = ?rhs =>
            match rhs with context [indent (dedent ?s')] =>
              assert (Heq2 : indent_level (dedent s)
                             = indent_level (dedent s')) by congruence;
              same_body H' (dedent s) (dedent s') Heq2
            end
        end
    end.
    cbv zeta. cbn [fst]. same_indent self'. reflexivity.
Qed.

End BlocksStable.

Lemma translate_assignment_stable (target_lang : string)
  (target value : ast.expr) :
  stable (translate_assignment target_lang target value).
Proof.
  unfold translate_assignment. split.
  - intros self. destruct target; cbn; split; set_solver.
  - intros self self' Heq. cbv zeta. cbn [fst].
    set (updated := match target with ast.Name id => add_variable id self
                                    | _ => self end).
    set (updated' := match target with ast.Name id => add_variable id self'
                                     | _ => self' end).
    rewrite (get_indent_depth updated updated'); [reflexivity|].
    subst updated updated'. destruct target; exact Heq.
Qed.

Lemma translate_statement_stable (target_lang : string) (s : ast.stmt) :
  stable (translate_statement target_lang s).
Proof.
  induction s as [s IH] using stmt_nested_ind.
  destruct s; cbn [children] in IH; try apply Forall_app in IH as [IH IH'].
  - by apply (translate_function_stable target_lang _ name args body).
  - by apply (translate_class_stable target_lang _ name body).
  - apply translate_assignment_stable.
  - apply (stable_pure (translate_aug_assignment target_lang target op value)).
    intros self self' Heq. unfold translate_aug_assignment.
    by rewrite (get_indent_depth self self').
  - by apply (translate_if_stable target_lang _ test body orelse).
  - by apply (translate_for_stable target_lang _ target iter body).
  - by apply (translate_while_stable target_lang _ test body).
  - apply (stable_pure (translate_return target_lang value)).
    intros self self' Heq. unfold translate_return.
    by rewrite (get_indent_depth self self').
  - apply (stable_pure (translate_expression_stmt target_lang value)).
    intros self self' Heq. unfold translate_expression_stmt.
    by rewrite (get_indent_depth self self').
  - by apply (stable_pure (λ _, "")).
  - by apply (stable_pure (λ _, "")).
  - apply (stable_pure (translate_pass target_lang)).
    intros self self' Heq. unfold translate_pass.
    by rewrite (get_indent_depth self self').
  - apply (stable_pure (λ self, get_indent self +:+ "break;")).
    intros self self' Heq. by rewrite (get_indent_depth self self').
  - apply (stable_pure (λ self, get_indent self +:+ "continue;")).
    intros self self' Heq. by rewrite (get_indent_depth self self').
  - by apply (stable_pure (λ _, "")).
Qed.

Lemma module_loop_stable (target_lang : string) (body : list ast.stmt) :
  stable (module_loop target_lang body).
Proof.
  induction body as [|s rest [IH1 IH2]]; simpl.
  - by apply (stable_pure (λ _, ([], []))).
  - destruct (translate_statement_stable target_lang s) as [Hs1 Hs2]. split.
    + intros self. pose proof (Hs1 self) as [Hd Hv].
      destruct (translate_statement target_lang s self) as [code self1].
      pose proof (IH1 self1) as [Hd' Hv'].
      destruct (module_loop target_lang rest self1) as [[imports main] self2].
      cbn [fst snd] in *.
      destruct (is_import s); cbn [snd];
        (split; [congruence | by transitivity (variables self1)]).
    + intros self self' Heq.
      pose proof (Hs2 self self' Heq) as Ht.
      pose proof (Hs1 self) as [Hd _]. pose proof (Hs1 self') as [Hd' _].
      destruct (translate_statement target_lang s self) as [code self1],
               (translate_statement target_lang s self') as [code' self1'].
      cbn [fst snd] in *.
      assert (Heq1 : indent_level self1 = indent_level self1') by congruence.
      specialize (IH2 self1 self1' Heq1).
      destruct (module_loop target_lang rest self1) as [[imports main] self2],
               (module_loop target_lang rest self1') as [[imports' main'] self2'].
      cbn [fst snd] in *. simplify_eq.
      by destruct (is_import s).
Qed.

Lemma translate_module_stable (target_lang : string) (node : ast.py_module) :
  stable (translate_module target_lang node).
Proof.
  destruct (module_loop_stable target_lang (ast.body node)) as [H1 H2].
  unfold translate_module. split.
  - intros self. specialize (H1 self).
    destruct (module_loop target_lang (ast.body node) self)
      as [[[|i imports] main] self1]; cbn [snd] in *;
      [done | by destruct (negb _)].
  - intros self self' Heq. specialize (H2 self self' Heq).
    destruct (module_loop target_lang (ast.body node) self)
      as [[imports main] self1],
      (module_loop target_lang (ast.body node) self')
      as [[imports' main'] self1'].
    cbn [fst] in H2. simplify_eq.
    destruct imports' as [|i imports']; [done | by destruct (negb _)].
Qed.

Lemma translate_tree_stable (target_lang : string) (tree : ast.py_module) :
  stable (translate_tree target_lang tree).
Proof.
  destruct (translate_module_stable target_lang tree) as [H1 H2].
  unfold translate_tree. split.
  - intros self. specialize (H1 self).
    by destruct (translate_module target_lang tree self).
  - intros self self' Heq. specialize (H2 self self' Heq).
    destruct (translate_module target_lang tree self),
             (translate_module target_lang tree self').
    cbn [fst] in *. by subst.
Qed.

Lemma translate_stable (target_lang : string)
  (ast_parse : string → option ast.py_module) (python_code : string) :
  stable (translate target_lang ast_parse python_code).
Proof.
  unfold translate. destruct (ast_parse python_code) as [tree|].
  - apply translate_tree_stable.
  - by apply (stable_pure (λ _, fallback_translate python_code)).
Qed.

(** ** Determinism of whole-program emission *)

(** C7.  Whatever a translator instance has emitted before, and whatever
    it has recorded while doing so, the text it emits for a program is the
    text a translator that has not run yet emits for it: on any instance
    [self], after translating any [earlier] program, translating
    [python_code] gives the same text as on [self] itself.  Taking
    [earlier] to be [python_code], two runs in sequence on one instance
    give identical text. *)
Theorem translate_ignores_earlier_calls (target_lang : string)
  (ast_parse : string → option ast.py_module)
  (earlier python_code : string) (self : translator) :
  (translate target_lang ast_parse python_code
     (translate target_lang ast_parse earlier self).2).1
  = (translate target_lang ast_parse python_code self).1.
Proof.
  destruct (translate_stable target_lang ast_parse earlier) as [Hstate _].
  destruct (translate_stable target_lang ast_parse python_code) as [_ Htext].
  apply Htext, Hstate.
Qed.

(** ** The scope of the translator's state *)



(** ** Declarations *)

(** C1.  The program [x = 5; x = 6] comes out with the declaring form on
    both assignments: [:=] twice under [go], [let] twice under
    [javascript]. *)
Theorem reassignment_declares_again :
  (translate_module "go" (ast.PyModule [assign_int "x" 5; assign_int "x" 6])
     (init "go").2).1
  = "x := 5" +:+ Str.nl +:+ Str.nl +:+ "x := 6"
  ∧ (translate_module "javascript"
       (ast.PyModule [assign_int "x" 5; assign_int "x" 6])
       (init "javascript").2).1
    = "let x = 5;" +:+ Str.nl +:+ Str.nl +:+ "let x = 6;".
Proof. split; vm_compute; reflexivity. Qed.

(** ** The [java] wrapper *)

(** C3.  For the program [def f(): pass] the [java] wrapper keeps only
    the header line of [f] as a class member, drops its closing brace, and
    moves the statement of its body into [main]. *)
Theorem java_wrapper_moves_function_body :
  (translate_tree "java" (ast.PyModule [ast.FunctionDef "f" [] [ast.Pass]])
     (init "java").2).1
  = "public class MeroTranslated {" +:+ Str.nl
    +:+ "public static void f() {" +:+ Str.nl
    +:+ Str.nl
    +:+ "    public static void main(String[] args) {" +:+ Str.nl
    +:+ "        ;" +:+ Str.nl
    +:+ "    }" +:+ Str.nl
    +:+ "}".
Proof. vm_compute. reflexivity. Qed.

(** ** Operators *)

(** C8.  Under [php] the addition [1 + 2], whose operands are both
    integers, is emitted with the concatenation operator. *)
Theorem php_integer_addition_is_concatenated :
  translate_expr "php"
    (ast.BinOp (ast.Constant (ast.CInt 1)) ast.Add (ast.Constant (ast.CInt 2)))
    false
  = "1 . 2".
Proof. vm_compute. reflexivity. Qed.

(** C10.  A binary operator outside [+ - * / % ** //] is emitted as [+],
    also inside a binary operation, and a comparison operator outside
    [== != < <= > >=] is emitted as [==], whatever the target. *)
Theorem unrecognised_operators_rewritten (target_lang : string)
  (op : ast.operator) (cmp : ast.cmpop) (lhs rhs : ast.expr) :
  op ∉ recognised_operators →
  cmp ∉ recognised_cmpops →
  translate_operator target_lang op = "+"
  ∧ translate_expr target_lang (ast.BinOp lhs op rhs) false
    = translate_expr target_lang lhs false +:+ " + "
      +:+ translate_expr target_lang rhs false
  ∧ translate_compare_op target_lang cmp = "=="
  ∧ translate_expr target_lang (ast.Compare lhs [cmp] [rhs]) false
    = translate_expr target_lang lhs false +:+ " == "
      +:+ translate_expr target_lang rhs false.
Proof.
  unfold recognised_operators, recognised_cmpops. intros Hop Hcmp.
  repeat split.
  - destruct op; try reflexivity; exfalso; apply Hop; set_solver.
  - destruct op; try reflexivity; exfalso; apply Hop; set_solver.
  - destruct cmp; try reflexivity; exfalso; apply Hcmp; set_solver.
  - destruct cmp; try reflexivity; exfalso; apply Hcmp; set_solver.
Qed.

Lemma unrecognised_operators_rewritten_witness :
  translate_operator "javascript" ast.BitAnd = "+"
  ∧ translate_expr "javascript"
      (ast.BinOp (ast.Name "a") ast.BitAnd (ast.Name "b")) false
    = "a + b"
  ∧ translate_compare_op "javascript" ast.In = "=="
  ∧ translate_expr "javascript"
      (ast.Compare (ast.Name "a") [ast.In] [ast.Name "b"]) false
    = "a == b".
Proof.
  apply (unrecognised_operators_rewritten "javascript" ast.BitAnd ast.In
           (ast.Name "a") (ast.Name "b")).
  - compute_done.
  - compute_done.
Defined.

(** ** Expressions the translator has no case for *)

(** C6.  An expression node of a class outside the recognised variants is
    emitted as the token [mero_expr], under every target and whether or
    not it stands as an assignment target; the emitter is a total
    function, so nothing is raised. *)
Theorem unknown_expression_placeholder (target_lang kind : string)
  (is_assignment_target : bool) :
  translate_expr target_lang (ast.OtherExpr kind) is_assignment_target
  = "mero_expr".
Proof. reflexivity. Qed.

(** ** Targets outside the catalogue *)

Lemma unknown_eqb (target_lang name : string) :
  target_lang ∉ known_targets → Str.mem name known_targets = true →
  String.eqb target_lang name = false.
Proof.
  intros Hunknown Hname. apply String.eqb_neq. intros ->.
  apply Hunknown, list_elem_of_In.
  unfold Str.mem in Hname. apply existsb_exists in Hname as (x & Hx & Heq).
  apply String.eqb_eq in Heq. by subst.
Qed.

(** Takes every test on the target name to its negative outcome. *)
Ltac default_branches H :=
  unfold is_lang, lang_in, Str.mem, existsb;
  repeat match goal with
    | |- context [String.eqb ?t ?n] =>
        rewrite (unknown_eqb t n H eq_refl)
    end;
  cbn [orb andb negb].

(** Two targets outside the catalogue are emitted alike: every test on
    the target name fails for both. *)
Section UnknownTargets.

Variables t t' : string.
Hypothesis Ht : t ∉ known_targets.
Hypothesis Ht' : t' ∉ known_targets.

Ltac defaults := default_branches Ht; default_branches Ht'.

Lemma translate_compare_op_unknown (op : ast.cmpop) :
  translate_compare_op t op = translate_compare_op t' op.
Proof. destruct op; cbn [translate_compare_op]; by defaults. Qed.

Lemma translate_operator_unknown (op : ast.operator) :
  translate_operator t op = translate_operator t' op.
Proof. destruct op; cbn [translate_operator]; by defaults. Qed.

Lemma compare_parts_unknown (f g : ast.expr → bool → string)
  (ops : list ast.cmpop) (comparators : list ast.expr) :
  Forall (λ e, ∀ flag, f e flag = g e flag) comparators →
  compare_parts t f ops comparators = compare_parts t' g ops comparators.
Proof.
  intros H. revert ops.
  induction H as [|c comparators Hc _ IH]; intros [|op ops]; try reflexivity.
  cbn [compare_parts]. unfold tr0.
  by rewrite Hc, IH, translate_compare_op_unknown.
Qed.

Lemma map_tr0_unknown (f g : ast.expr → bool → string) (l : list ast.expr) :
  Forall (λ e, ∀ flag, f e flag = g e flag) l → map (tr0 f) l = map (tr0 g) l.
Proof.
  intros H. apply map_ext_Forall.
  eapply Forall_impl; [exact H|]. intros e He. apply He.
Qed.

Lemma map_tr_key_unknown (f g : ast.expr → bool → string)
  (keys : list (option ast.expr)) :
  Forall (λ e, ∀ flag, f e flag = g e flag) (present keys) →
  map (tr_key f) keys = map (tr_key g) keys.
Proof.
  induction keys as [|[key|] keys IH]; cbn [present map tr_key];
    intros H; [reflexivity | |by rewrite IH].
  apply Forall_cons in H as [Hkey H]. unfold tr0. by rewrite Hkey, IH.
Qed.

Lemma translate_expr_unknown (e : ast.expr) (flag : bool) :
  translate_expr t e flag = translate_expr t' e flag.
Proof.
  revert flag. induction e as [e IH] using expr_nested_ind. intros flag.
  destruct e as [value|id|func args|lhs op rhs|first ops comparators
                |value attr|value slice|elts|keys values|elts|op operand
                |op values|test body orelse|kind];
    cbn [subexprs] in IH; cbn [translate_expr];
    repeat match type of IH with
      | Forall _ (_ :: _) =>
          let H := fresh "Hsub" in apply Forall_cons in IH as [H IH]
      end.
  - reflexivity.
  - by defaults.
  - unfold translate_call, translate_print, translate_len, translate_str,
      translate_range.
    assert (Hname : match func with
                    | ast.Name id => id
                    | ast.Attribute value attr =>
                        translate_attribute t (translate_expr t) value attr
                    | _ => tr0 (translate_expr t) func
                    end
                    = match func with
                      | ast.Name id => id
                      | ast.Attribute value attr =>
                          translate_attribute t' (translate_expr t') value attr
                      | _ => tr0 (translate_expr t') func
                      end).
    { unfold tr0. destruct func; try reflexivity; apply (Hsub false). }
    rewrite Hname, (map_tr0_unknown _ _ args IH).
    destruct args as [|first args].
    + by defaults.
    + apply Forall_cons in IH as [Hfirst _]. unfold tr0. rewrite Hfirst.
      by defaults.
  - unfold translate_binop, tr0.
    rewrite Hsub, Hsub0, translate_operator_unknown. by defaults.
  - unfold translate_compare, tr0.
    by rewrite Hsub, (compare_parts_unknown _ _ ops comparators IH).
  - unfold translate_attribute, tr0. rewrite Hsub. by defaults.
  - unfold translate_subscript, tr0. by rewrite Hsub, Hsub0.
  - unfold translate_list. rewrite (map_tr0_unknown _ _ elts IH). by defaults.
  - apply Forall_app in IH as [Hkeys Hvalues].
    unfold translate_dict, dict_pairs.
    rewrite (map_tr_key_unknown _ _ keys Hkeys),
      (map_tr0_unknown _ _ values Hvalues).
    by defaults.
  - unfold translate_tuple. rewrite (map_tr0_unknown _ _ elts IH). by defaults.
  - unfold translate_unaryop, tr0. by rewrite Hsub.
  - unfold translate_boolop. by rewrite (map_tr0_unknown _ _ values IH).
  - unfold translate_ifexp, tr0. by rewrite Hsub, Hsub0, Hsub1.
  - reflexivity.
Qed.

Lemma body_lines_unknown
  (f g : ast.stmt → translator → string * translator) (body : list ast.stmt) :
  Forall (λ s, ∀ self, f s self = g s self) body →
  ∀ self, body_lines f body self = body_lines g body self.
Proof.
  induction 1 as [|s rest Hs _ IH]; intros self; cbn [body_lines];
    [reflexivity|].
  rewrite Hs. destruct (g s self) as [translated self1]. by rewrite IH.
Qed.

Lemma translate_body_unknown
  (f g : ast.stmt → translator → string * translator) (body : list ast.stmt) :
  Forall (λ s, ∀ self, f s self = g s self) body →
  ∀ self, translate_body f body self = translate_body g body self.
Proof.
  intros H self. unfold translate_body. by rewrite (body_lines_unknown f g).
Qed.

Lemma translate_statement_unknown (s : ast.stmt) (self : translator) :
  translate_statement t s self = translate_statement t' s self.
Proof.
  revert self. induction s as [s IH] using stmt_nested_ind. intros self.
  destruct s; cbn [children] in IH; try apply Forall_app in IH as [IH IH'];
    cbn [translate_statement]; try reflexivity.
  - unfold translate_function, function_body, translate_parameters.
    rewrite (translate_body_unknown _ _ body IH).
    destruct (translate_body _ body _) as [text self1]. by defaults.
  - unfold translate_class.
    rewrite (translate_body_unknown _ _ body IH).
    destruct (translate_body _ body _) as [text self1]. by defaults.
  - unfold translate_assignment.
    rewrite !(translate_expr_unknown _ _). by defaults.
  - unfold translate_aug_assignment.
    rewrite !(translate_expr_unknown _ _), translate_operator_unknown.
    by defaults.
  - unfold translate_if.
    rewrite (translate_body_unknown _ _ body IH), (translate_expr_unknown _ _).
    destruct (translate_body _ body _) as [text self1].
    destruct orelse as [|o orelse]; [by defaults|].
    rewrite (translate_body_unknown _ _ (o :: orelse) IH').
    destruct (translate_body _ (o :: orelse) _) as [text2 self2].
    by defaults.
  - unfold translate_for.
    rewrite (translate_body_unknown _ _ body IH), !(translate_expr_unknown _ _).
    destruct (translate_body _ body _) as [text self1]. by defaults.
  - unfold translate_while.
    rewrite (translate_body_unknown _ _ body IH), (translate_expr_unknown _ _).
    destruct (translate_body _ body _) as [text self1]. by defaults.
  - unfold translate_return. destruct value as [e|]; [|reflexivity].
    by rewrite (translate_expr_unknown _ _).
  - unfold translate_expression_stmt.
    rewrite (translate_expr_unknown _ _). by defaults.
  - unfold translate_pass. by defaults.
Qed.

Lemma module_loop_unknown (body : list ast.stmt) (self : translator) :
  module_loop t body self = module_loop t' body self.
Proof.
  revert self. induction body as [|s rest IH]; intros self; cbn [module_loop];
    [reflexivity|].
  rewrite translate_statement_unknown.
  destruct (translate_statement t' s self) as [code self1]. by rewrite IH.
Qed.

Lemma translate_tree_unknown (tree : ast.py_module) (self : translator) :
  translate_tree t tree self = translate_tree t' tree self.
Proof.
  unfold translate_tree, translate_module, add_language_wrappers.
  rewrite module_loop_unknown.
  destruct (module_loop t' (ast.body tree) self) as [[imports main] self1].
  by defaults.
Qed.

End UnknownTargets.

(** C2, as stated, fails: the request for [Cobol], which the catalogue
    does not know, is answered with emitted text. *)
Lemma unknown_target_is_translated :
  (resolve "Cobol" ∉ known_targets)
  ∧ smart_translate (λ _, Some (ast.PyModule [assign_int "x" 5]))
      "x = 5" "Python" "Cobol"
    = "x = 5;".
Proof. split; [compute_done | vm_compute; reflexivity]. Qed.

(** C2, amended.  A request whose target does not resolve to a known
    language does not fail.  The lower-cased name is handed to the
    translator, whose emitters then take their last, default branch: an
    assignment comes out as [target = value;], and a whole program comes
    out as under any [other] name outside the catalogue.  The emitted
    program is returned as it is, with no wrapper around it; when the
    source does not parse, the source itself is returned. *)
Theorem unknown_target_default_emission
  (ast_parse : string → option ast.py_module)
  (code from_lang to_lang other : string) :
  lang_key from_lang = "python" →
  resolve to_lang ∉ known_targets →
  other ∉ known_targets →
  smart_translate ast_parse code from_lang to_lang
  = match ast_parse code with
    | Some tree =>
        (translate_module (resolve to_lang) tree
           {| indent_level := 0; variables := ∅ |}).1
    | None => code
    end
  ∧ (∀ (target value : ast.expr) (self : translator),
       (translate_assignment (resolve to_lang) target value self).1
       = get_indent self +:+ translate_expr (resolve to_lang) target true
         +:+ " = " +:+ translate_expr (resolve to_lang) value false +:+ ";")
  ∧ (∀ (tree : ast.py_module) (self : translator),
       translate_tree (resolve to_lang) tree self
       = translate_tree other tree self).
Proof.
  intros Hfrom Hunknown Hother. repeat split.
  - unfold smart_translate. rewrite Hfrom. cbn [String.eqb Ascii.eqb Bool.eqb].
    unfold resolve, init, translate, translate_tree in *. cbn [fst snd] in *.
    destruct (ast_parse code) as [tree|]; [|reflexivity].
    destruct (translate_module _ tree _) as [text self]. cbn [fst].
    unfold add_language_wrappers. by default_branches Hunknown.
  - intros target value self. unfold translate_assignment. cbv zeta. cbn [fst].
    default_branches Hunknown.
    by destruct target.
  - intros tree self. by apply translate_tree_unknown.
Qed.

Lemma unknown_target_default_emission_witness :
  smart_translate (λ _, Some (ast.PyModule [assign_int "x" 5]))
    "x = 5" "Python" "Cobol"
  = (translate_module (resolve "Cobol") (ast.PyModule [assign_int "x" 5])
       {| indent_level := 0; variables := ∅ |}).1
  ∧ (∀ (target value : ast.expr) (self : translator),
       (translate_assignment (resolve "Cobol") target value self).1
       = get_indent self +:+ translate_expr (resolve "Cobol") target true
         +:+ " = " +:+ translate_expr (resolve "Cobol") value false +:+ ";")
  ∧ (∀ (tree : ast.py_module) (self : translator),
       translate_tree (resolve "Cobol") tree self
       = translate_tree "fortran" tree self).
Proof.
  apply (unknown_target_default_emission
           (λ _, Some (ast.PyModule [assign_int "x" 5]))
           "x = 5" "Python" "Cobol" "fortran").
  - vm_compute. reflexivity.
  - compute_done.
  - compute_done.
Defined.

(** ** Bodies that emit nothing *)

(** C4, as stated, fails.  Under [javascript], the body of
    [def f(): import os], empty once the import is dropped, is the tag
    [mero_empty], which is neither a keyword of the target nor a
    semicolon; and the body of [if x: import os] is a line of blanks. *)
Lemma empty_body_not_a_noop :
  (translate_statement "javascript" (ast.FunctionDef "f" [] [ast.Import])
     (init "javascript").2).1
  = "function f() {" +:+ Str.nl +:+ "    mero_empty" +:+ Str.nl +:+ "}"
  ∧ (translate_statement "javascript" (ast.If (ast.Name "x") [ast.Import] [])
       (init "javascript").2).1
    = "if (x) {" +:+ Str.nl +:+ "        " +:+ Str.nl +:+ "}".
Proof. split; vm_compute; reflexivity. Qed.

(** C4, amended.  When the statements of a function body emit no line
    that is neither empty nor blank, the body of the emitted function is
    exactly one line: the indentation of the body followed by [pass]
    under the targets [python] and [ruby], and by the tag [mero_empty]
    under every other target. *)
Theorem empty_function_body_filled (target_lang : string)
  (func_body : list ast.stmt) (self : translator) :
  (body_lines (translate_statement target_lang) func_body (indent self)).1 = [] →
  (function_body target_lang (translate_statement target_lang) func_body
     self).1
  = get_indent self +:+ "    "
    +:+ (if lang_in target_lang ["python"; "ruby"] then "pass"
         else "mero_empty").
Proof.
  intros Hlines. unfold function_body, translate_body.
  assert (Hst : stable (body_lines (translate_statement target_lang) func_body)).
  { apply body_lines_stable, Forall_forall.
    intros s _. apply translate_statement_stable. }
  pose proof (proj1 Hst (indent self)) as [Hd _].
  destruct (body_lines _ func_body (indent self)) as [lines self1].
  cbn [fst snd] in *. subst lines. cbn [fst].
  rewrite strip_all_space; cbn [Str.truthy negb].
  - rewrite (get_indent_depth (dedent self1) self); [reflexivity|].
    cbn in *. lia.
  - unfold get_indent. by rewrite all_space_append, all_space_times.
Qed.

Lemma empty_function_body_filled_witness :
  (function_body "javascript" (translate_statement "javascript")
     [ast.Import] (init "javascript").2).1
  = get_indent (init "javascript").2 +:+ "    "
    +:+ (if lang_in "javascript" ["python"; "ruby"] then "pass"
         else "mero_empty").
Proof.
  apply (empty_function_body_filled "javascript" [ast.Import]
           (init "javascript").2).
  vm_compute. reflexivity.
Defined.

(** ** Emission is never empty, with one exception *)

Lemma of_int_nonempty (n : Z) : Str.of_int n ≠ "".
Proof.
  unfold Str.of_int. destruct (Z.to_int n) as [d|d]; [|discriminate].
  destruct d; discriminate.
Qed.

(** Refutes [H : s = ""] for a text [s] built by appending to a piece
    that is visibly not empty. *)
Ltac refute_empty H :=
  first
    [ discriminate H
    | contradiction
    | let H1 := fresh "H" in
      let H2 := fresh "H" in
      apply append_empty_inv in H as [H1 H2];
      first [ discriminate H1 | contradiction | refute_empty H2 ] ].

Ltac split_tests :=
  repeat match goal with
    | |- context [if ?b then _ else _] => destruct b
    end.

Ltac nonempty :=
  unfold braces, ended, Str.nl, Str.dq, Str.bs; split_tests;
  let H := fresh "H" in intros H; refute_empty H.

Lemma translate_expr_nonempty (target_lang : string) (e : ast.expr)
  (is_assignment_target : bool) :
  well_formed e = true →
  translate_expr target_lang e is_assignment_target ≠ "".
Proof.
  revert is_assignment_target.
  induction e as [value|id|func IHfunc args|lhs IHl op rhs IHr
                 |first IHf ops comparators|value IHv attr
                 |value IHv slice IHs|elts|keys values|elts
                 |op operand IHo|op values|test IHt body IHb orelse IHe|kind];
    intros flag Hwf; cbn [translate_expr].
  - destruct value as [| [|] | s | n | text]; cbn [translate_constant];
      try discriminate.
    + apply of_int_nonempty.
    + by apply truthy_nonempty.
  - cbn in Hwf. apply truthy_nonempty in Hwf.
    unfold translate_constant_name. nonempty.
  - unfold translate_call, translate_print, translate_len, translate_str,
      translate_range.
    destruct args; nonempty.
  - unfold translate_binop. nonempty.
  - cbn in Hwf. destruct ops as [|o ops], comparators as [|c comparators];
      try (rewrite ?andb_false_r in Hwf; discriminate).
    unfold translate_compare. cbn [compare_parts Str.join]. nonempty.
  - unfold translate_attribute. nonempty.
  - unfold translate_subscript. nonempty.
  - unfold translate_list. nonempty.
  - unfold translate_dict. nonempty.
  - unfold translate_tuple. nonempty.
  - cbn in Hwf. specialize (IHo false Hwf). unfold translate_unaryop, tr0.
    destruct op; [exact IHo | nonempty ..].
  - cbn in Hwf. apply andb_prop in Hwf as [_ Hlen].
    destruct values as [|v1 [|v2 values]]; try discriminate.
    unfold translate_boolop. cbn [map Str.join]. destruct op; nonempty.
  - unfold translate_ifexp. nonempty.
  - discriminate.
Qed.

Lemma translate_statement_nonempty (target_lang : string) (s : ast.stmt)
  (self : translator) :
  emitted_variant target_lang s = true →
  (translate_statement target_lang s self).1 ≠ "".
Proof.
  intros Hs.
  destruct s; cbn [emitted_variant] in Hs; try discriminate Hs;
    cbn [translate_statement].
  - unfold translate_function.
    destruct (function_body _ _ _ _) as [text self1]. cbn [fst]. nonempty.
  - unfold translate_class.
    destruct (translate_body _ _ _) as [text self1]. cbn [fst]. nonempty.
  - unfold translate_assignment. cbn [fst]. nonempty.
  - unfold translate_aug_assignment. cbn [fst]. nonempty.
  - unfold translate_if.
    destruct (translate_body _ body _) as [text self1].
    destruct orelse as [|o orelse]; cbn [fst]; [nonempty|].
    destruct (translate_body _ (o :: orelse) _) as [text2 self2].
    cbn [fst]. nonempty.
  - unfold translate_for.
    destruct (translate_body _ _ _) as [text self1]. cbn [fst]. nonempty.
  - unfold translate_while.
    destruct (translate_body _ _ _) as [text self1]. cbn [fst]. nonempty.
  - unfold translate_return. cbn [fst]. nonempty.
  - pose proof (translate_expr_nonempty target_lang value false Hs).
    unfold translate_expression_stmt. cbn [fst]. nonempty.
  - apply negb_true_iff in Hs.
    unfold translate_pass, lang_in, Str.mem, existsb. rewrite Hs.
    cbn [orb fst]. nonempty.
  - cbn [fst]. nonempty.
  - cbn [fst]. nonempty.
Qed.

Lemma join_nonempty (sep first : string) (rest : list string) :
  first ≠ "" → Str.join sep (first :: rest) ≠ "".
Proof.
  intros Hfirst. destruct rest as [|next rest]; [exact Hfirst|].
  change (Str.join sep (first :: next :: rest))
    with (first +:+ sep +:+ Str.join sep (next :: rest)).
  by apply append_nonempty_l.
Qed.

(** The statements kept by the loop of [translate_module] are not empty,
    and an emitted variant among the statements is kept. *)
Lemma module_loop_main (target_lang : string) (body : list ast.stmt)
  (self : translator) :
  Forall (λ code, code ≠ "") (module_loop target_lang body self).1.2
  ∧ (existsb (emitted_variant target_lang) body = true →
     (module_loop target_lang body self).1.2 ≠ []).
Proof.
  revert self. induction body as [|s rest IH]; intros self;
    cbn [module_loop existsb]; [by split|].
  pose proof (translate_statement_nonempty target_lang s self) as Hs.
  destruct (translate_statement target_lang s self) as [code self1].
  destruct (IH self1) as [IHall IHsome].
  destruct (module_loop target_lang rest self1) as [[imports main] self2].
  cbn [fst snd] in *.
  assert (Himport : is_import s = true → emitted_variant target_lang s = false)
    by (by destruct s).
  destruct (is_import s); cbn [fst snd].
  - rewrite Himport by done. by split.
  - destruct code as [|c code]; cbn [Str.truthy].
    + split; [done|]. intros [Hv|Hv]%orb_prop; [by apply Hs in Hv | auto].
    + split; [by constructor | done].
Qed.

Lemma module_loop_nothing (target_lang : string) (body : list ast.stmt)
  (self : translator) :
  forallb (emits_nothing target_lang) body = true →
  module_loop target_lang body self = ([], [], self).
Proof.
  induction body as [|s rest IH]; cbn [forallb module_loop]; [done|].
  intros [Hs Hrest]%andb_prop.
  assert (Hempty : translate_statement target_lang s self = ("", self)).
  { destruct s; try discriminate Hs; try reflexivity.
    cbn [emits_nothing] in Hs. cbn [translate_statement].
    unfold translate_pass, lang_in, Str.mem, existsb. by rewrite Hs. }
  rewrite Hempty, (IH Hrest). by destruct (is_import s).
Qed.

Lemma add_language_wrappers_nonempty (target_lang code : string) :
  has_wrapper target_lang = true ∨ code ≠ "" →
  add_language_wrappers target_lang code ≠ "".
Proof.
  unfold has_wrapper, add_language_wrappers, lang_in, is_lang, Str.mem,
    existsb.
  destruct (java_partition _) as [class_members main_calls].
  intros H.
  repeat match goal with
    | |- context [String.eqb target_lang ?name] =>
        destruct (String.eqb target_lang name)
    end;
    cbn [orb] in *;
    first [ by destruct H | unfold Str.nl, Str.dq; discriminate ].
Qed.

(** C5, as stated, fails: [Pass] is a variant of the node set and [ruby]
    a registered target, and emitting the one under the other gives the
    empty text; so does emitting, under [javascript], the [Program] that
    is empty and the one that holds nothing but an import. *)
Lemma pass_and_bare_program_are_empty :
  (translate_statement "ruby" ast.Pass (init "ruby").2).1 = ""
  ∧ (translate_tree "javascript" (ast.PyModule []) (init "javascript").2).1
    = ""
  ∧ (translate_tree "javascript" (ast.PyModule [ast.Import])
       (init "javascript").2).1
    = "".
Proof. by repeat split. Qed.

(** C5, amended.  Under every target, every expression variant, the
    unrecognised one included, and every statement variant of the node
    set emit a text that is not empty, [Pass] under [ruby] excepted;
    expressions are taken as Python's grammar gives them.  A [Program]
    emits a text that is not empty when the target has a wrapper or one of
    its top-level statements is such an emitted variant; it emits the
    empty text when the target has no wrapper and each of its top-level
    statements is an import, of an unrecognised class, or [Pass] under
    [ruby], the empty program included. *)
Theorem emission_nonempty (target_lang : string) (e : ast.expr)
  (is_assignment_target : bool) (s : ast.stmt) (tree : ast.py_module)
  (self : translator) :
  well_formed e = true →
  emitted_variant target_lang s = true →
  translate_expr target_lang e is_assignment_target ≠ ""
  ∧ (translate_statement target_lang s self).1 ≠ ""
  ∧ (program_emits target_lang tree = true →
     (translate_tree target_lang tree self).1 ≠ "")
  ∧ (has_wrapper target_lang = false →
     forallb (emits_nothing target_lang) (ast.body tree) = true →
     (translate_tree target_lang tree self).1 = "").
Proof.
  intros Hwf Hs. split; [by apply translate_expr_nonempty|].
  split; [by apply translate_statement_nonempty|].
  unfold translate_tree, translate_module. split.
  - intros Hemits. unfold program_emits in Hemits.
    destruct (module_loop_main target_lang (ast.body tree) self)
      as [Hall Hsome].
    destruct (module_loop target_lang (ast.body tree) self)
      as [[imports main] self1].
    cbn [fst snd] in *. apply orb_prop in Hemits.
    destruct imports as [|i imports];
      [|destruct (negb (lang_in target_lang ["php"]))];
      cbn [fst]; apply add_language_wrappers_nonempty;
      (destruct Hemits as [Hwrap|Hstmt]; [by left | right]);
      specialize (Hsome Hstmt); (destruct main as [|code main]; [done|]);
      apply Forall_cons in Hall as [Hcode _];
      first [ by apply join_nonempty
            | apply append_nonempty_r, append_nonempty_l;
              unfold Str.nl; discriminate ].
  - intros Hwrap Hnothing. rewrite (module_loop_nothing _ _ _ Hnothing).
    cbn [Str.join fst]. unfold has_wrapper in Hwrap.
    unfold add_language_wrappers, lang_in, is_lang, Str.mem, existsb in *.
    repeat match goal with
      | |- context [String.eqb target_lang ?name] =>
          destruct (String.eqb target_lang name)
      end;
      cbn [orb] in Hwrap; done.
Qed.

Lemma emission_nonempty_witness :
  translate_expr "lua" (ast.UnaryOp ast.Invert (ast.Name "mask")) false ≠ ""
  ∧ (translate_statement "lua"
       (ast.Expr (ast.UnaryOp ast.Invert (ast.Name "mask")))
       (init "lua").2).1 ≠ ""
  ∧ (translate_tree "lua"
       (ast.PyModule [ast.Import; ast.Break]) (init "lua").2).1 ≠ ""
  ∧ (translate_tree "lua"
       (ast.PyModule [ast.Import; ast.OtherStmt "With"]) (init "lua").2).1
    = "".
Proof.
  destruct (emission_nonempty "lua"
              (ast.UnaryOp ast.Invert (ast.Name "mask")) false
              (ast.Expr (ast.UnaryOp ast.Invert (ast.Name "mask")))
              (ast.PyModule [ast.Import; ast.Break]) (init "lua").2
              eq_refl eq_refl) as (Hexpr & Hstmt & Hprogram & _).
  destruct (emission_nonempty "lua"
              (ast.UnaryOp ast.Invert (ast.Name "mask")) false
              (ast.Expr (ast.UnaryOp ast.Invert (ast.Name "mask")))
              (ast.PyModule [ast.Import; ast.OtherStmt "With"])
              (init "lua").2 eq_refl eq_refl) as (_ & _ & _ & Hbare).
  split; [exact Hexpr|]. split; [exact Hstmt|].
  split; [apply Hprogram; reflexivity | apply Hbare; reflexivity].
Defined.

(** * Further properties of the translator *)

#[local] Set Warnings "-clear-no-such-hyp".

(** ** Statements that leave no trace *)

Lemma translate_statement_silent (target_lang : string) (s : ast.stmt)
  (self : translator) :
  silent s = true → translate_statement target_lang s self = ("", self).
Proof. by destruct s. Qed.

Lemma module_loop_without_silent (target_lang : string)
  (body : list ast.stmt) (self : translator) :
  module_loop target_lang (List.filter (λ s, negb (silent s)) body) self
  = module_loop target_lang body self.
Proof.
  revert self. induction body as [|s rest IH]; intros self; [reflexivity|].
  cbn [List.filter]. destruct (silent s) eqn:Hs; cbn [negb module_loop].
  - rewrite (translate_statement_silent _ _ _ Hs), IH.
    destruct (module_loop target_lang rest self) as [[imports main] self1].
    by destruct (is_import s).
  - destruct (translate_statement target_lang s self) as [code self1].
    by rewrite IH.
Qed.

(** X1.  Imports and statements of a class the translator has no case
    for never reach the output: taking them out of the top level of a
    program changes neither the emitted text nor the translator, whatever
    the target. *)
Theorem silent_statements_leave_no_trace (target_lang : string)
  (body : list ast.stmt) (self : translator) :
  translate_tree target_lang
    (ast.PyModule (List.filter (λ s, negb (silent s)) body)) self
  = translate_tree target_lang (ast.PyModule body) self.
Proof.
  unfold translate_tree, translate_module. cbn [ast.body].
  by rewrite module_loop_without_silent.
Qed.

(** ** What the translator records *)

Section Recorded.

Variable target_lang : string.
Variable tr_stmt : ast.stmt → translator → string * translator.

Lemma body_lines_records (body : list ast.stmt) (self : translator) :
  Forall (records tr_stmt) body →
  variables (body_lines tr_stmt body self).2
  = variables self ∪ ⋃ (map assigned body).
Proof.
  intros H. revert self.
  induction H as [|s rest Hs _ IH]; intros self; cbn [body_lines map].
  - cbn. set_solver.
  - specialize (Hs self). destruct (tr_stmt s self) as [translated self1].
    specialize (IH self1).
    destruct (body_lines tr_stmt rest self1) as [lines self2].
    cbn [fst snd union_list foldr] in *. rewrite IH, Hs. set_solver.
Qed.

(** The state a block emitter is left with after the body it emits one
    level deeper. *)
Lemma nested_body_records (body : list ast.stmt) (self : translator) :
  Forall (records tr_stmt) body →
  variables (nested (translate_body tr_stmt body) self).2
  = variables self ∪ ⋃ (map assigned body).
Proof.
  intros H. pose proof (body_lines_records body (indent self) H) as Hb.
  unfold nested, translate_body.
  destruct (body_lines tr_stmt body (indent self)) as [[|line lines] self1];
    exact Hb.
Qed.

Ltac open_nested H self :=
  let Hb := fresh "Hb" in
  pose proof (nested_body_records _ self H) as Hb; unfold nested in Hb;
  destruct (translate_body tr_stmt _ (indent self)) as [? ?];
  cbn [fst snd dedent indent variables] in Hb.

Lemma translate_function_records (name : string) (args : list string)
  (body : list ast.stmt) (self : translator) :
  Forall (records tr_stmt) body →
  variables (translate_function target_lang tr_stmt name args body self).2
  = variables self ∪ ⋃ (map assigned body).
Proof.
  intros H. unfold translate_function, function_body.
  open_nested H self. exact Hb.
Qed.

Lemma translate_class_records (name : string) (body : list ast.stmt)
  (self : translator) :
  Forall (records tr_stmt) body →
  variables (translate_class target_lang tr_stmt name body self).2
  = variables self ∪ ⋃ (map assigned body).
Proof. intros H. unfold translate_class. open_nested H self. exact Hb. Qed.

Lemma translate_for_records (target iter : ast.expr) (body : list ast.stmt)
  (self : translator) :
  Forall (records tr_stmt) body →
  variables (translate_for target_lang tr_stmt target iter body self).2
  = variables self ∪ ⋃ (map assigned body).
Proof. intros H. unfold translate_for. open_nested H self. exact Hb. Qed.

Lemma translate_while_records (test : ast.expr) (body : list ast.stmt)
  (self : translator) :
  Forall (records tr_stmt) body →
  variables (translate_while target_lang tr_stmt test body self).2
  = variables self ∪ ⋃ (map assigned body).
Proof. intros H. unfold translate_while. open_nested H self. exact Hb. Qed.

Lemma translate_if_records (test : ast.expr) (body orelse : list ast.stmt)
  (self : translator) :
  Forall (records tr_stmt) body → Forall (records tr_stmt) orelse →
  variables (translate_if target_lang tr_stmt test body orelse self).2
  = variables self ∪ (⋃ (map assigned body) ∪ ⋃ (map assigned orelse)).
Proof.
  intros H H'. unfold translate_if. open_nested H self.
  destruct orelse as [|o orelse'].
  - cbn. rewrite Hb. set_solver.
  - match goal with |- context [indent (dedent ?s)] =>
      open_nested H' (dedent s) end.
    cbn [snd dedent variables]. rewrite Hb0, Hb. set_solver.
Qed.

End Recorded.

Lemma translate_statement_records (target_lang : string) (s : ast.stmt) :
  records (translate_statement target_lang) s.
Proof.
  induction s as [s IH] using stmt_nested_ind. intros self.
  destruct s; cbn [children] in IH; try apply Forall_app in IH as [IH IH'];
    cbn [translate_statement assigned snd].
  - by apply translate_function_records.
  - by apply translate_class_records.
  - unfold translate_assignment. destruct target; cbn; set_solver.
  - set_solver.
  - by apply translate_if_records.
  - by apply translate_for_records.
  - by apply translate_while_records.
  - set_solver.
  - set_solver.
  - set_solver.
  - set_solver.
  - set_solver.
  - set_solver.
  - set_solver.
  - set_solver.
Qed.

(** X2.  After a program has been emitted, the translator's set of
    variable names is the set it had before together with the first
    targets that are plain names, of the assignments of the program at
    any depth of nesting; the further targets of a chained assignment,
    loop variables, augmented assignments and the [else] of a loop add
    nothing. *)
Theorem translate_tree_records (target_lang : string) (tree : ast.py_module)
  (self : translator) :
  variables (translate_tree target_lang tree self).2
  = variables self ∪ ⋃ (map assigned (ast.body tree)).
Proof.
  unfold translate_tree, translate_module.
  assert (H : ∀ body self,
             variables (module_loop target_lang body self).2
             = variables self ∪ ⋃ (map assigned body)).
  { clear. intros body. induction body as [|s rest IH]; intros self.
    - cbn. set_solver.
    - cbn [module_loop map].
      pose proof (translate_statement_records target_lang s self) as Hs.
      destruct (translate_statement target_lang s self) as [code self1].
      specialize (IH self1).
      destruct (module_loop target_lang rest self1) as [[imports main] self2].
      cbn [fst snd union_list foldr] in *.
      destruct (is_import s); cbn [snd]; rewrite IH, Hs; set_solver. }
  specialize (H (ast.body tree) self).
  destruct (module_loop target_lang (ast.body tree) self)
    as [[[|i imports] main] self1]; cbn [snd] in *;
    [exact H | by destruct (negb _)].
Qed.

(** ** What the emitted text depends on *)

(** X3.  The emitters never read the set of recorded names: two
    translators at the same depth emit the same text for a statement,
    whatever names each has recorded. *)
Theorem text_depends_on_depth_only (target_lang : string) (s : ast.stmt)
  (self self' : translator) :
  indent_level self = indent_level self' →
  (translate_statement target_lang s self).1
  = (translate_statement target_lang s self').1.
Proof. apply translate_statement_stable. Qed.

Lemma text_depends_on_depth_only_witness :
  (translate_statement "go" (assign_int "x" 6)
     {| indent_level := 0; variables := ∅ |}).1
  = (translate_statement "go" (assign_int "x" 6)
       {| indent_level := 0; variables := {[ "x" ]} |}).1.
Proof.
  apply (text_depends_on_depth_only "go" (assign_int "x" 6)
           {| indent_level := 0; variables := ∅ |}
           {| indent_level := 0; variables := {[ "x" ]} |}).
  reflexivity.
Defined.

(** ** Lines, and where they begin *)

Lemma append_cons (a : ascii) (s1 s2 : string) :
  String a s1 +:+ s2 = String a (s1 +:+ s2).
Proof. reflexivity. Qed.

Lemma append_assoc (s1 s2 s3 : string) :
  (s1 +:+ s2) +:+ s3 = s1 +:+ s2 +:+ s3.
Proof. induction s1 as [|a s1 IH]; [reflexivity | rewrite !append_cons; by f_equal]. Qed.

Lemma append_empty_r (s : string) : s +:+ "" = s.
Proof. induction s as [|a s IH]; [reflexivity | rewrite !append_cons; by f_equal]. Qed.

Lemma free_of_append (c : ascii) (s1 s2 : string) :
  free_of c (s1 +:+ s2) = free_of c s1 && free_of c s2.
Proof.
  induction s1 as [|a s1 IH]; simpl; [reflexivity|].
  by rewrite IH, andb_assoc.
Qed.

Lemma free_of_times (n : Z) : free_of (ascii_of_nat 10) (Str.times "    " n) = true.
Proof.
  unfold Str.times. induction (Z.to_nat n) as [|k IH]; [reflexivity|].
  by rewrite Nat.iter_succ, free_of_append, IH.
Qed.

Lemma split_nonempty (c : ascii) (s : string) : Str.split c s ≠ [].
Proof.
  destruct s as [|a s]; cbn; [discriminate|].
  destruct (Ascii.eqb a c); [discriminate|].
  by destruct (Str.split c s).
Qed.

(** A prefix without the separator stays on the first piece. *)
Lemma split_prefix (c : ascii) (p s : string) :
  free_of c p = true →
  Str.split c (p +:+ s)
  = match Str.split c s with
    | piece :: pieces => (p +:+ piece) :: pieces
    | [] => [p +:+ s]
    end.
Proof.
  intros Hp. induction p as [|a p IH]; rewrite ?append_cons.
  - change ("" +:+ s) with s. pose proof (split_nonempty c s).
    by destruct (Str.split c s).
  - cbn [free_of] in Hp. apply andb_prop in Hp as [Ha Hp].
    apply negb_true_iff in Ha. cbn [Str.split]. rewrite Ha, (IH Hp).
    pose proof (split_nonempty c s). by destruct (Str.split c s).
Qed.

Lemma join_prefix (sep p x : string) (rest : list string) :
  Str.join sep ((p +:+ x) :: rest) = p +:+ Str.join sep (x :: rest).
Proof.
  destruct rest as [|y rest]; [reflexivity|].
  change (Str.join sep ((p +:+ x) :: y :: rest))
    with ((p +:+ x) +:+ sep +:+ Str.join sep (y :: rest)).
  by rewrite append_assoc.
Qed.

Lemma rsplit1_head_prefix (c : ascii) (p s : string) :
  free_of c p = true →
  Str.rsplit1_head c (p +:+ s) = p +:+ Str.rsplit1_head c s.
Proof.
  intros Hp. unfold Str.rsplit1_head. rewrite (split_prefix c p s Hp).
  pose proof (split_nonempty c s) as Hne.
  destruct (Str.split c s) as [|piece pieces]; [done|]. clear Hne.
  destruct pieces as [|x pieces _] using rev_ind; [reflexivity|].
  cbn [rev]. rewrite !rev_app_distr. cbn [rev app].
  rewrite !rev_app_distr, !rev_involutive. cbn [rev app].
  destruct (rev pieces); apply join_prefix.
Qed.

Lemma begins_with_append (ind rest : string) : begins_with ind (ind +:+ rest).
Proof. by exists rest. Qed.

Lemma bodies_stable (target_lang : string) (body : list ast.stmt) :
  stable (nested (translate_body (translate_statement target_lang) body)).
Proof.
  apply nested_body_stable, Forall_forall.
  intros s _. apply translate_statement_stable.
Qed.

(** Opens the body emitted one level deeper and brings the indentation
    used after it back to that of [self]. *)
Ltac after_body target_lang self :=
  match goal with
  | |- context [translate_body _ ?body (indent ?s)] =>
      let D := fresh "D" in
      pose proof (proj1 (bodies_stable target_lang body) s) as [D _];
      unfold nested in D;
      destruct (translate_body _ body (indent s)) as [? ?];
      cbn [fst snd] in D;
      match type of D with
      | indent_level (dedent ?s') = _ =>
          rewrite ?(get_indent_depth (dedent s') self) by congruence
      end
  end.

Ltac begins :=
  cbn [fst]; split_tests; unfold braces, ended;
  rewrite ?append_assoc; apply begins_with_append.

(** X4.  Whatever the target and the depth, the text emitted for a
    statement is empty or begins with the indentation of the current
    depth. *)
Theorem statement_begins_at_indent (target_lang : string) (s : ast.stmt)
  (self : translator) :
  (translate_statement target_lang s self).1 = ""
  ∨ begins_with (get_indent self) (translate_statement target_lang s self).1.
Proof.
  destruct s; cbn [translate_statement]; try (by left);
    try (unfold translate_pass; destruct (lang_in _ ["ruby"]); [by left|]);
    right.
  - unfold translate_function, function_body. cbv zeta.
    after_body target_lang self. begins.
  - unfold translate_class. cbv zeta. after_body target_lang self. begins.
  - unfold translate_assignment. cbv zeta. destruct target; begins.
  - unfold translate_aug_assignment. begins.
  - unfold translate_if. cbv zeta. after_body target_lang self.
    destruct orelse as [|o orelse]; [begins|].
    after_body target_lang self. cbn [fst]. split_tests; unfold braces, ended;
      rewrite ?rsplit1_head_prefix by apply free_of_times;
      rewrite ?append_assoc; apply begins_with_append.
  - unfold translate_for. cbv zeta. after_body target_lang self. begins.
  - unfold translate_while. cbv zeta. after_body target_lang self. begins.
  - unfold translate_return. begins.
  - unfold translate_expression_stmt. begins.
  - begins.
  - begins.
  - begins.
Qed.

(** ** String literals *)

Lemma replace_append (c : ascii) (by_ s1 s2 : string) :
  Str.replace c by_ (s1 +:+ s2) = Str.replace c by_ s1 +:+ Str.replace c by_ s2.
Proof.
  induction s1 as [|a s1 IH]; [reflexivity|].
  rewrite append_cons. cbn [Str.replace]. by rewrite IH, append_assoc.
Qed.

Lemma escape_cons (a : ascii) (s : string) :
  escape (String a s) = escaped_char a +:+ escape s.
Proof.
  unfold escape, escaped_char. cbn [Str.replace]. rewrite replace_append.
  f_equal. destruct (Ascii.eqb_spec a (ascii_of_nat 92)) as [->|Hbs];
    [reflexivity|].
  cbn [Str.replace]. by destruct (Ascii.eqb a (ascii_of_nat 34)).
Qed.

Lemma escape_injective (s1 s2 : string) : escape s1 = escape s2 → s1 = s2.
Proof.
  revert s2. induction s1 as [|a1 s1 IH]; intros [|a2 s2].
  - reflexivity.
  - rewrite escape_cons. unfold escaped_char.
    destruct (Ascii.eqb a2 _); [discriminate|].
    destruct (Ascii.eqb a2 _); discriminate.
  - rewrite escape_cons. unfold escaped_char.
    destruct (Ascii.eqb a1 _); [discriminate|].
    destruct (Ascii.eqb a1 _); discriminate.
  - rewrite !escape_cons. unfold escaped_char.
    destruct (Ascii.eqb_spec a1 (ascii_of_nat 92)) as [->|H1],
             (Ascii.eqb_spec a2 (ascii_of_nat 92)) as [->|H2];
      try destruct (Ascii.eqb_spec a1 (ascii_of_nat 34)) as [->|H1'];
      try destruct (Ascii.eqb_spec a2 (ascii_of_nat 34)) as [->|H2'];
      unfold Str.bs, Str.dq; rewrite ?append_cons;
      change ("" +:+ escape s1) with (escape s1);
      change ("" +:+ escape s2) with (escape s2);
      intros Heq; injection Heq; intros; subst;
      first [ f_equal; by apply IH | exfalso; congruence ].
Qed.

Lemma append_cancel_r (s1 s2 tail : string) :
  s1 +:+ tail = s2 +:+ tail → s1 = s2.
Proof.
  assert (Hlen : ∀ s t, String.length (s +:+ t) = (String.length s + String.length t)%nat).
  { intros s t. induction s as [|a s IH]; [reflexivity|].
    rewrite append_cons. cbn. by rewrite IH. }
  revert s2. induction s1 as [|a1 s1 IH]; intros [|a2 s2] Heq.
  - reflexivity.
  - apply (f_equal String.length) in Heq. rewrite !Hlen in Heq. cbn in Heq. lia.
  - apply (f_equal String.length) in Heq. rewrite !Hlen in Heq. cbn in Heq. lia.
  - rewrite !append_cons in Heq. injection Heq as -> Heq. f_equal. by apply IH.
Qed.

(** X5.  The escaping of string constants loses nothing: two string
    constants that are emitted as the same literal are the same string. *)
Theorem string_literal_injective (s1 s2 : string) :
  translate_constant (ast.CStr s1) = translate_constant (ast.CStr s2) →
  s1 = s2.
Proof.
  cbn [translate_constant]. cbv zeta. fold (escape s1) (escape s2).
  unfold Str.dq at 1 3. rewrite !append_cons. intros Heq.
  injection Heq as Heq. change ("" +:+ ?x) with x in Heq.
  by apply escape_injective, (append_cancel_r _ _ Str.dq).
Qed.

Lemma string_literal_injective_witness :
  String (ascii_of_nat 92) "n" = String (ascii_of_nat 92) "n".
Proof.
  apply (string_literal_injective (String (ascii_of_nat 92) "n")
           (String (ascii_of_nat 92) "n")).
  reflexivity.
Defined.

(** ** Targets that are emitted alike *)

Lemma compare_parts_alike (t t' : string) (f g : ast.expr → bool → string)
  (ops : list ast.cmpop) (comparators : list ast.expr) :
  (∀ op, translate_compare_op t op = translate_compare_op t' op) →
  Forall (λ e, ∀ flag, f e flag = g e flag) comparators →
  compare_parts t f ops comparators = compare_parts t' g ops comparators.
Proof.
  intros Hop H. revert ops.
  induction H as [|c comparators Hc _ IH]; intros [|op ops]; try reflexivity.
  cbn [compare_parts]. unfold tr0. by rewrite Hc, IH, Hop.
Qed.

(** The steps of the proofs that two given targets are emitted alike:
    the children are rewritten by the induction hypothesis, and the
    tests on the two target names are evaluated. *)
Ltac expr_cases e IH :=
  destruct e as [value|id|func args|lhs op rhs|first ops comparators
                |value attr|value slice|elts|keys values|elts|op operand
                |op values|test body orelse|kind];
  cbn [subexprs] in IH; cbn [translate_expr];
  repeat match type of IH with
    | Forall _ (_ :: _) =>
        let H := fresh "Hsub" in apply Forall_cons in IH as [H IH]
    end.

Ltac rewrite_children :=
  unfold tr0;
  repeat match goal with
    | Hsub : ∀ flag : bool, translate_expr _ _ flag = _ |- _ =>
        rewrite ?Hsub; clear Hsub
    end.

Ltac expr_alike t t' :=
  let e := fresh "e" in
  let IH := fresh "IH" in
  let flag := fresh "flag" in
  intros e flag; revert flag;
  induction e as [e IH] using expr_nested_ind; intros flag;
  expr_cases e IH;
  lazymatch goal with
  | |- translate_call _ _ ?func ?args = _ =>
      let Hfirst := fresh "Hfirst" in
      unfold translate_call, translate_range;
      rewrite (map_tr0_unknown _ _ args IH);
      assert (Hfirst : ∀ first rest, args = first :: rest →
                tr0 (translate_expr t) first = tr0 (translate_expr t') first)
        by (intros ? ? ->; apply Forall_cons in IH as [Hfirst _];
            apply Hfirst);
      destruct func; cbn [translate_expr] in *; rewrite_children;
      destruct args; rewrite ?(Hfirst _ _ eq_refl); reflexivity
  | |- translate_binop _ _ _ ?op _ = _ =>
      unfold translate_binop; rewrite_children; by destruct op
  | |- translate_compare _ _ _ ?ops ?comparators = _ =>
      unfold translate_compare; rewrite_children;
      by rewrite (compare_parts_alike t t' _ _ ops comparators
                    ltac:(by intros []) IH)
  | |- translate_dict _ _ ?keys ?values = _ =>
      let Hkeys := fresh "Hkeys" in
      let Hvalues := fresh "Hvalues" in
      apply Forall_app in IH as [Hkeys Hvalues];
      unfold translate_dict, dict_pairs;
      by rewrite (map_tr_key_unknown _ _ keys Hkeys),
        (map_tr0_unknown _ _ values Hvalues)
  | |- translate_list _ _ ?elts = _ =>
      unfold translate_list; by rewrite (map_tr0_unknown _ _ elts IH)
  | |- translate_tuple _ _ ?elts = _ =>
      unfold translate_tuple; by rewrite (map_tr0_unknown _ _ elts IH)
  | |- translate_boolop _ _ ?values = _ =>
      unfold translate_boolop; by rewrite (map_tr0_unknown _ _ values IH)
  | |- _ =>
      unfold translate_attribute, translate_subscript, translate_unaryop,
        translate_ifexp;
      by rewrite_children
  end.

(** Evaluates the tests on target names that are given in full. *)
Ltac eval_tests :=
  repeat match goal with
    | |- context [is_lang ?t ?n] =>
        let b := eval vm_compute in (is_lang t n) in
        lazymatch b with
        | true => change (is_lang t n) with true
        | false => change (is_lang t n) with false
        end
    | |- context [lang_in ?t ?l] =>
        let b := eval vm_compute in (lang_in t l) in
        lazymatch b with
        | true => change (lang_in t l) with true
        | false => change (lang_in t l) with false
        end
    end;
  cbv beta iota.

Ltac stmt_alike t t' Hexpr :=
  let s := fresh "s" in
  let IH := fresh "IH" in
  let IH' := fresh "IH" in
  let self := fresh "self" in
  intros s self; revert self;
  induction s as [s IH] using stmt_nested_ind; intros self;
  destruct s; cbn [children] in IH; try apply Forall_app in IH as [IH IH'];
  cbn [translate_statement];
  unfold translate_function, function_body, translate_class,
    translate_assignment, translate_aug_assignment, translate_if,
    translate_for, translate_while, translate_return,
    translate_expression_stmt, translate_pass, translate_parameters,
    translate_operator;
  rewrite ?Hexpr;
  try rewrite (translate_body_unknown _ _ _ IH);
  lazymatch goal with
  | |- context [translate_body _ ?body (indent self)] =>
      destruct (translate_body _ body (indent self)) as [? ?];
      lazymatch goal with
      | |- context [match ?orelse with [] => _ | _ :: _ => _ end] =>
          destruct orelse;
          [ by eval_tests
          | rewrite (translate_body_unknown _ _ _ IH');
            destruct (translate_body _ _ _) as [? ?]; by eval_tests ]
      | |- _ => by eval_tests
      end
  | |- _ => by eval_tests
  end.

Lemma translate_expr_typescript (e : ast.expr) (flag : bool) :
  translate_expr "typescript" e flag = translate_expr "javascript" e flag.
Proof. revert e flag. expr_alike "typescript" "javascript". Qed.

Lemma translate_statement_typescript (s : ast.stmt) (self : translator) :
  translate_statement "typescript" s self
  = translate_statement "javascript" s self.
Proof.
  revert s self.
  stmt_alike "typescript" "javascript" translate_expr_typescript.
Qed.

Lemma translate_expr_cpp (e : ast.expr) (flag : bool) :
  translate_expr "cpp" e flag = translate_expr "c" e flag.
Proof. revert e flag. expr_alike "cpp" "c". Qed.

Lemma translate_statement_cpp (s : ast.stmt) (self : translator) :
  translate_statement "cpp" s self = translate_statement "c" s self.
Proof. revert s self. stmt_alike "cpp" "c" translate_expr_cpp. Qed.

Lemma module_loop_alike (t t' : string) (body : list ast.stmt)
  (self : translator) :
  (∀ s self, translate_statement t s self = translate_statement t' s self) →
  module_loop t body self = module_loop t' body self.
Proof.
  intros H. revert self.
  induction body as [|s rest IH]; intros self; cbn [module_loop];
    [reflexivity|].
  rewrite H. destruct (translate_statement t' s self) as [code self1].
  by rewrite IH.
Qed.

(** X6.  The target [typescript] is emitted exactly as [javascript]: for
    every program and translator state, the text, wrapper included, and
    the resulting state are the same. *)
Theorem typescript_is_javascript (tree : ast.py_module) (self : translator) :
  translate_tree "typescript" tree self = translate_tree "javascript" tree self.
Proof.
  unfold translate_tree, translate_module.
  rewrite (module_loop_alike "typescript" "javascript" _ _
             translate_statement_typescript).
  by destruct (module_loop "javascript" (ast.body tree) self)
    as [[[|i imports] main] self1].
Qed.

(** X7.  The targets [c] and [cpp] are emitted alike: for every program
    and translator state, the text, wrapper included, and the resulting
    state are the same. *)
Theorem cpp_is_c (tree : ast.py_module) (self : translator) :
  translate_tree "cpp" tree self = translate_tree "c" tree self.
Proof.
  unfold translate_tree, translate_module.
  rewrite (module_loop_alike "cpp" "c" _ _ translate_statement_cpp).
  by destruct (module_loop "c" (ast.body tree) self)
    as [[[|i imports] main] self1].
Qed.

(** ** Re-indenting emitted code *)

Lemma split_pieces_free (c : ascii) (s : string) :
  Forall (λ piece, free_of c piece = true) (Str.split c s).
Proof.
  induction s as [|a s IH]; cbn [Str.split]; [by repeat constructor|].
  destruct (Ascii.eqb a c) eqn:Ha; [by constructor|].
  pose proof (split_nonempty c s).
  destruct (Str.split c s) as [|piece pieces]; [done|].
  apply Forall_cons in IH as [Hpiece Hpieces].
  constructor; [|done]. cbn [free_of]. by rewrite Ha, Hpiece.
Qed.

Lemma split_join (c : ascii) (pieces : list string) :
  pieces ≠ [] →
  Forall (λ piece, free_of c piece = true) pieces →
  Str.split c (Str.join (String c "") pieces) = pieces.
Proof.
  intros Hne H. induction H as [|x rest Hx Hrest IH]; [done|]. clear Hne.
  destruct rest as [|y rest].
  - cbn [Str.join]. rewrite <- (append_empty_r x) at 1.
    rewrite (split_prefix c x "" Hx). cbn [Str.split].
    by rewrite append_empty_r.
  - change (Str.join (String c "") (x :: y :: rest))
      with (x +:+ String c "" +:+ Str.join (String c "") (y :: rest)).
    rewrite (split_prefix c x _ Hx), append_cons. cbn [Str.split].
    rewrite Ascii.eqb_refl.
    change ("" +:+ ?z) with z. rewrite IH by done.
    by rewrite append_empty_r.
Qed.

(** X8.  [indent_code] works line by line: the lines of its result are
    the lines of the code, in order and as many, each with the
    indentation put before it when it holds something other than white
    space, and emptied when it does not. *)
Theorem indent_code_lines (code : string) (level : Z) :
  Str.split (ascii_of_nat 10) (indent_code code level)
  = map (λ line, if Str.truthy (Str.strip line)
                 then Str.times "    " level +:+ line else "")
      (Str.split (ascii_of_nat 10) code).
Proof.
  unfold indent_code. cbv zeta. apply split_join.
  - pose proof (split_nonempty (ascii_of_nat 10) code).
    by destruct (Str.split (ascii_of_nat 10) code).
  - apply Forall_forall. intros line Hline.
    apply list_elem_of_In, in_map_iff in Hline as (piece & <- & Hpiece).
    destruct (Str.truthy (Str.strip piece)); [|reflexivity].
    rewrite free_of_append, free_of_times. cbn [andb].
    pose proof (split_pieces_free (ascii_of_nat 10) code) as Hfree.
    rewrite Forall_forall in Hfree. by apply Hfree, list_elem_of_In.
Qed.

(** ** Requests that are answered with the source *)

(** X9.  When the source language does not resolve to [python], or the
    source does not parse, [smart_translate] hands the source back
    unchanged, whatever the target. *)
Theorem source_returned_unchanged
  (ast_parse : string → option ast.py_module)
  (code from_lang to_lang : string) :
  lang_key from_lang ≠ "python" ∨ ast_parse code = None →
  smart_translate ast_parse code from_lang to_lang = code.
Proof.
  intros H. unfold smart_translate.
  destruct (String.eqb_spec (lang_key from_lang) "python") as [Hpy|Hpy];
    [|reflexivity].
  destruct H as [H|H]; [done|].
  unfold init, translate. cbn [fst snd]. by rewrite H.
Qed.

Lemma source_returned_unchanged_witness :
  smart_translate (λ _, None) "int main() {}" "C++" "Rust" = "int main() {}".
Proof.
  apply (source_returned_unchanged (λ _, None) "int main() {}" "C++" "Rust").
  left. vm_compute. discriminate.
Defined.

(** X10.  A language may be named by its catalogue name or by the key the
    catalogue gives for it: as source or as target, both make
    [smart_translate] answer the same. *)
Theorem name_and_key_interchangeable
  (ast_parse : string → option ast.py_module)
  (code name key other : string) :
  (name, key) ∈ lang_names →
  smart_translate ast_parse code other name
  = smart_translate ast_parse code other key
  ∧ smart_translate ast_parse code name other
    = smart_translate ast_parse code key other.
Proof.
  intros Hin.
  assert (Hkey : lang_key name = lang_key key).
  { unfold lang_names in Hin. rewrite !elem_of_cons, elem_of_nil in Hin.
    decompose [or] Hin; simplify_eq; try done; by vm_compute. }
  unfold smart_translate. by rewrite Hkey.
Qed.

Lemma name_and_key_interchangeable_witness :
  smart_translate (λ _, None) "x = 5" "Python" "C++"
  = smart_translate (λ _, None) "x = 5" "Python" "cpp"
  ∧ smart_translate (λ _, None) "x = 5" "C++" "Python"
    = smart_translate (λ _, None) "x = 5" "cpp" "Python".
Proof.
  apply (name_and_key_interchangeable (λ _, None) "x = 5" "C++" "cpp" "Python").
  compute_done.
Defined.

(** ** Parameters *)

Lemma translate_parameters_without_self (target_lang : string)
  (args : list string) :
  translate_parameters target_lang
    (List.filter (λ arg, negb (String.eqb arg "self")) args)
  = translate_parameters target_lang args.
Proof.
  unfold translate_parameters. f_equal.
  induction args as [|arg args IH]; [reflexivity|].
  cbn [List.filter flat_map]. destruct (String.eqb arg "self") eqn:Harg;
    cbn [negb flat_map app]; rewrite ?Harg; by rewrite IH.
Qed.

(** X11.  A parameter named [self] is dropped wherever it stands in the
    parameter list: a function is emitted as the function without its
    [self] parameters is, under every target. *)
Theorem self_parameter_dropped (target_lang name : string)
  (args : list string) (body : list ast.stmt) (self : translator) :
  translate_statement target_lang (ast.FunctionDef name args body) self
  = translate_statement target_lang
      (ast.FunctionDef name
         (List.filter (λ arg, negb (String.eqb arg "self")) args) body)
      self.
Proof.
  cbn [translate_statement]. unfold translate_function.
  by rewrite translate_parameters_without_self.
Qed.

(** ** The [php] sigil *)

Lemma startswith_inv (s p : string) :
  Str.startswith s p = true → ∃ rest, s = p +:+ rest.
Proof.
  unfold Str.startswith. revert s.
  induction p as [|a p IH]; intros s Hp; [by exists s|].
  destruct s as [|b s]; [discriminate|]. cbn [String.prefix] in Hp.
  destruct (ascii_dec a b) as [->|]; [|discriminate].
  destruct (IH s Hp) as [rest ->]. by exists rest.
Qed.

Lemma begins_with_append2 (ind p rest : string) :
  begins_with (ind +:+ p) (ind +:+ p +:+ rest).
Proof. exists rest. by rewrite append_assoc. Qed.

(** X12.  Under [php] the target of an assignment, plain or augmented,
    always carries the sigil: the emitted text is the indentation, then
    [$], whatever expression the target is. *)
Theorem php_target_has_sigil (target value : ast.expr) (op : ast.operator)
  (self : translator) :
  begins_with (get_indent self +:+ "$")
    (translate_assignment "php" target value self).1
  ∧ begins_with (get_indent self +:+ "$")
      (translate_aug_assignment "php" target op value self).
Proof.
  split.
  - unfold translate_assignment. cbv zeta. cbn [fst]. eval_tests.
    destruct (Str.startswith _ "$") eqn:Hsigil; cbn [negb];
      try (apply startswith_inv in Hsigil as [rest ->]);
      destruct target; rewrite ?append_assoc; apply begins_with_append2.
  - unfold translate_aug_assignment. cbv zeta. eval_tests.
    destruct (Str.startswith _ "$") eqn:Hsigil; cbn [negb];
      try (apply startswith_inv in Hsigil as [rest ->]);
      rewrite ?append_assoc; apply begins_with_append2.
Qed.

(** ** The credit header *)

(** X13.  For each of the nine line-comment styles the header is a
    comment in that style: every line of it is empty or begins with the
    comment token and a blank, whatever the language name. *)
Theorem credit_header_is_commented (lang_name comment_style : string) :
  comment_style ∈ line_styles →
  Forall (λ line, line = "" ∨ Str.startswith line (comment_style +:+ " ") = true)
    (Str.split (ascii_of_nat 10) (get_credit_header lang_name comment_style)).
Proof.
  unfold line_styles. rewrite !elem_of_cons, elem_of_nil. intros H.
  decompose [or] H; try done; subst; vm_compute;
    repeat (constructor; [by (left + right)|]); constructor.
Qed.

Lemma credit_header_is_commented_witness :
  Forall (λ line, line = "" ∨ Str.startswith line ("//" +:+ " ") = true)
    (Str.split (ascii_of_nat 10) (get_credit_header "Go" "//")).
Proof.
  apply (credit_header_is_commented "Go" "//"). compute_done.
Defined.

(** ** Blank bodies *)

Lemma rstrip_empty (s : string) : Str.rstrip s = "" ↔ all_space s = true.
Proof.
  induction s as [|c s IH]; cbn [Str.rstrip all_space]; [done|].
  destruct (Str.rstrip s) eqn:Hs.
  - destruct (Str.is_space c); cbn [andb]; [tauto|].
    split; [discriminate|discriminate].
  - split; [discriminate|]. intros [_ Hall]%andb_prop.
    apply IH in Hall. discriminate.
Qed.

Lemma lstrip_all_space (s : string) :
  all_space (Str.lstrip s) = all_space s.
Proof.
  induction s as [|c s IH]; cbn [Str.lstrip all_space]; [done|].
  destruct (Str.is_space c) eqn:Hc; [done|].
  cbn [all_space]. by rewrite Hc.
Qed.

Lemma strip_empty (s : string) : Str.strip s = "" ↔ all_space s = true.
Proof. unfold Str.strip. by rewrite rstrip_empty, lstrip_all_space. Qed.

Lemma body_lines_not_blank
  (tr_stmt : ast.stmt → translator → string * translator)
  (body : list ast.stmt) (self : translator) :
  Forall (λ line, all_space line = false) (body_lines tr_stmt body self).1.
Proof.
  revert self. induction body as [|s rest IH]; intros self;
    cbn [body_lines]; [constructor|].
  destruct (tr_stmt s self) as [translated self1]. specialize (IH self1).
  destruct (body_lines tr_stmt rest self1) as [lines self2]. cbn [fst] in *.
  destruct (Str.truthy translated); cbn [andb]; [|done].
  destruct (Str.truthy (Str.strip translated)) eqn:Hstrip; [|done].
  constructor; [|done].
  destruct (all_space translated) eqn:Hall; [|done].
  apply strip_empty in Hall. by rewrite Hall in Hstrip.
Qed.

(** X14.  The text [translate_body] gives for a body is blank exactly
    when none of its statements emitted a line that is neither empty nor
    blank; this is the one case in which [translate_function] puts its
    filler. *)
Theorem body_blank_iff_no_lines
  (tr_stmt : ast.stmt → translator → string * translator)
  (body : list ast.stmt) (self : translator) :
  Str.strip (translate_body tr_stmt body self).1 = ""
  ↔ (body_lines tr_stmt body self).1 = [].
Proof.
  unfold translate_body.
  pose proof (body_lines_not_blank tr_stmt body self) as Hlines.
  destruct (body_lines tr_stmt body self) as [[|line lines] self1];
    cbn [fst] in *.
  - split; [done|]. intros _. apply strip_all_space.
    unfold get_indent. by rewrite all_space_append, all_space_times.
  - split; [|done]. rewrite strip_empty.
    apply Forall_cons in Hlines as [Hline _].
    destruct lines as [|next lines]; cbn [Str.join].
    + by rewrite Hline.
    + change (Str.join Str.nl (line :: next :: lines))
        with (line +:+ Str.nl +:+ Str.join Str.nl (next :: lines)).
      by rewrite all_space_append, Hline.
Qed.

(** ** Letter case of the target *)

Lemma lower_ascii_idempotent (c : ascii) :
  Str.lower_ascii (Str.lower_ascii c) = Str.lower_ascii c.
Proof. by destruct c as [[] [] [] [] [] [] [] []]. Qed.

Lemma lower_idempotent (s : string) : Str.lower (Str.lower s) = Str.lower s.
Proof.
  induction s as [|c s IH]; cbn [Str.lower]; [done|].
  by rewrite lower_ascii_idempotent, IH.
Qed.

(** No catalogue name is written in lower case only. *)
Lemma lower_not_a_name (s : string) : lang_map !! Str.lower s = None.
Proof.
  apply not_elem_of_list_to_map. intros Hin.
  assert (Hfix : ∀ name, name ∈ lang_names.*1 → Str.lower name ≠ name).
  { intros name Hname. unfold lang_names in Hname. cbn in Hname.
    rewrite !elem_of_cons, elem_of_nil in Hname.
    decompose [or] Hname; try done; by subst. }
  apply (Hfix _ Hin). apply lower_idempotent.
Qed.

(** X15.  A target that is not a catalogue name is read without regard
    to letter case: the request gives what the request for its lower-case
    spelling gives. *)
Theorem target_case_insensitive
  (ast_parse : string → option ast.py_module)
  (code from_lang to_lang : string) :
  lang_map !! to_lang = None →
  smart_translate ast_parse code from_lang to_lang
  = smart_translate ast_parse code from_lang (Str.lower to_lang).
Proof.
  intros Hnone. unfold smart_translate, lang_key at 2 4.
  by rewrite Hnone, lower_not_a_name, lower_idempotent.
Qed.

Lemma target_case_insensitive_witness :
  smart_translate (λ _, Some (ast.PyModule [assign_int "x" 5]))
    "x = 5" "Python" "JAVA"
  = smart_translate (λ _, Some (ast.PyModule [assign_int "x" 5]))
      "x = 5" "Python" (Str.lower "JAVA").
Proof.
  apply (target_case_insensitive
           (λ _, Some (ast.PyModule [assign_int "x" 5]))
           "x = 5" "Python" "JAVA").
  vm_compute. reflexivity.
Defined.

(** ** White space and letter case above 127 *)

(** The no-break space and the next-line character are stripped like
    blanks, a line holding only them counts as blank for [indent_code],
    and the capital letters of the upper half are lowered. *)
Example upper_half_characters :
  Str.strip (String (ascii_of_nat 160) (String "x" (String (ascii_of_nat 133) "")))
  = "x"
  ∧ indent_code (String (ascii_of_nat 160) "") 1 = ""
  ∧ Str.lower (String (ascii_of_nat 192) (String (ascii_of_nat 215) ""))
    = String (ascii_of_nat 224) (String (ascii_of_nat 215) "").
Proof. by repeat split. Qed.
